(** * The todo list component of [src/App.tsx]

    A shallow embedding of the React component [App]: its state
    ([todos], [newTodo], [filter]), its handlers ([loadTodos],
    [saveTodos], [addTodo], [deleteTodo], [toggleTodoStatus],
    [showNotification]) and the projection [filteredTodos].

    Handlers are written in a small monad that records the effects they
    have on the outside world (React state setters, the Electron bridge,
    [localStorage], the Notification API, the console), those that happen
    before the handler returns apart from those that happen later, and
    that can throw.  A promise is given by the way it settles.  Each
    handler runs on the state of the latest render. *)

From Stdlib Require Import ZArith NArith List String Ascii Bool Lia Permutation.
From Stdlib Require Import DecimalString Sorted.
From Stdlib Require Decimal DecimalFacts DecimalPos.
Import ListNotations.

Set Implicit Arguments.
Set Warnings "-register-all".

(** ** JavaScript strings *)

Module JS.

(** A string is its sequence of UTF-16 code units. *)
Definition JSString := list N.

(** A source literal made of ASCII characters only. *)
Definition lit (s : string) : JSString :=
  map N_of_ascii (list_ascii_of_string s).

Definition string_eqb (a b : JSString) : bool :=
  if list_eq_dec N.eq_dec a b then true else false.

(** [WhiteSpace] and [LineTerminator] code points of ECMAScript, the ones
    [String.prototype.trim] strips.  All of them are in the basic plane. *)
Definition is_trim_space (c : N) : bool :=
  (   (c =? 9) || (c =? 10) || (c =? 11) || (c =? 12) || (c =? 13)
   || (c =? 32) || (c =? 160) || (c =? 5760)
   || ((8192 <=? c) && (c <=? 8202))
   || (c =? 8232) || (c =? 8233) || (c =? 8239) || (c =? 8287)
   || (c =? 12288) || (c =? 65279))%N.

Fixpoint trimStart (s : JSString) : JSString :=
  match s with
  | c :: r => if is_trim_space c then trimStart r else s
  | [] => []
  end.

Definition trimEnd (s : JSString) : JSString := rev (trimStart (rev s)).

(** [s.trim()] *)
Definition trim (s : JSString) : JSString := trimEnd (trimStart s).

(** ** JavaScript values

    What [JSON.parse] and the host bridge hand to the component at type
    [any].  A finite number is given by its decimal value [m * 10^e]; for
    a number literal this is the value as written, its rounding to a
    double is not followed. *)

Inductive JSNumber :=
| NaN
| Infinity (negative : bool)
| Dec (m e : Z).

Inductive JSValue :=
| JUndefined
| JNull
| JBool (b : bool)
| JNum (n : JSNumber)
| JStr (s : JSString)
| JArr (elems : list JSValue)
| JObj (props : list (JSString * JSValue)).

(** [ToBoolean] *)
Definition truthy (v : JSValue) : bool :=
  match v with
  | JUndefined | JNull => false
  | JBool b => b
  | JNum NaN => false
  | JNum (Infinity _) => true
  | JNum (Dec m _) => negb (m =? 0)%Z
  | JStr s => match s with [] => false | _ => true end
  | JArr _ | JObj _ => true
  end.

Fixpoint assoc (k : JSString) (props : list (JSString * JSValue)) : option JSValue :=
  match props with
  | [] => None
  | (k', v) :: r => if string_eqb k' k then Some v else assoc k r
  end.

(** [props] with the property [k] set to [v]: an existing property keeps
    its place, a new one goes last. *)
Fixpoint assoc_set (k : JSString) (v : JSValue) (props : list (JSString * JSValue))
  : list (JSString * JSValue) :=
  match props with
  | [] => [(k, v)]
  | (k', v') :: r =>
      if string_eqb k' k then (k', v) :: r else (k', v') :: assoc_set k v r
  end.

(** [v.k] for a value [v] other than [null] and [undefined], and a name
    [k] that is no built-in property of arrays, strings, numbers or
    booleans. *)
Definition get (v : JSValue) (k : JSString) : JSValue :=
  match v with
  | JObj props => match assoc k props with Some x => x | None => JUndefined end
  | _ => JUndefined
  end.

(** Exceptions the component can meet. *)
Inductive Exn :=
| SyntaxError
| QuotaExceededError
| HostError (message : JSString).

Inductive Completion (A : Type) :=
| Return (a : A)
| Throw (e : Exn).
Arguments Return {A} a.
Arguments Throw {A} e.

End JS.

(** ** The [JSON] object *)

Module JSON.
Import JS.

Definition is_ws (c : N) : bool :=
  ((c =? 32) || (c =? 9) || (c =? 10) || (c =? 13))%N.

Fixpoint skip_ws (s : JSString) : JSString :=
  match s with
  | c :: r => if is_ws c then skip_ws r else s
  | [] => []
  end.

Definition is_digit (c : N) : bool := ((48 <=? c) && (c <=? 57))%N.

Fixpoint span_digits (s : JSString) : JSString * JSString :=
  match s with
  | c :: r =>
      if is_digit c then let (ds, rest) := span_digits r in (c :: ds, rest)
      else ([], s)
  | [] => ([], [])
  end.

Definition digits_value (ds : JSString) : Z :=
  fold_left (fun a d => 10 * a + Z.of_N (d - 48))%Z ds 0%Z.

Definition hex_value (c : N) : option N :=
  (if is_digit c then Some (c - 48)
   else if (97 <=? c) && (c <=? 102) then Some (c - 87)
   else if (65 <=? c) && (c <=? 70) then Some (c - 55)
   else None)%N.

Definition hex4 (a b c d : N) : option N :=
  match hex_value a, hex_value b, hex_value c, hex_value d with
  | Some x, Some y, Some z, Some w => Some (((x * 16 + y) * 16 + z) * 16 + w)%N
  | _, _, _, _ => None
  end.

(** One-character escapes: the code unit an escape letter stands for. *)
Definition escape_value (c : N) : option N :=
  (if c =? 34 then Some 34          (* quote *)
   else if c =? 92 then Some 92     (* backslash *)
   else if c =? 47 then Some 47     (* slash *)
   else if c =? 98 then Some 8      (* b *)
   else if c =? 102 then Some 12    (* f *)
   else if c =? 110 then Some 10    (* n *)
   else if c =? 114 then Some 13    (* r *)
   else if c =? 116 then Some 9     (* t *)
   else None)%N.

(** The rest of a string literal, after its opening quote. *)
Fixpoint parse_string_body (s : JSString) (acc : JSString)
  : option (JSString * JSString) :=
  match s with
  | [] => None
  | c :: r =>
      if (c =? 34)%N then Some (rev acc, r)
      else if (c =? 92)%N then
        match r with
        | [] => None
        | e :: r1 =>
            if (e =? 117)%N then
              match r1 with
              | h1 :: h2 :: h3 :: h4 :: r2 =>
                  match hex4 h1 h2 h3 h4 with
                  | Some u => parse_string_body r2 (u :: acc)
                  | None => None
                  end
              | _ => None
              end
            else
              match escape_value e with
              | Some u => parse_string_body r1 (u :: acc)
              | None => None
              end
        end
      else if (c <? 32)%N then None
      else parse_string_body r (c :: acc)
  end.

(** A number literal: [-? int frac? exp?]; its value is [m * 10^e]. *)
Definition parse_number (s : JSString) : option (JSNumber * JSString) :=
  let '(negative, s1) :=
    match s with
    | c :: r => if (c =? 45)%N then (true, r) else (false, s)
    | [] => (false, s)
    end in
  let '(ip, s2) := span_digits s1 in
  match ip with
  | [] => None
  | d :: ds =>
      if (d =? 48)%N && negb (match ds with [] => true | _ => false end) then None
      else
        let frac :=
          match s2 with
          | c :: r =>
              if (c =? 46)%N then
                let '(fp, s3) := span_digits r in
                match fp with [] => None | _ => Some (fp, s3) end
              else Some ([], s2)
          | [] => Some ([], s2)
          end in
        match frac with
        | None => None
        | Some (fp, s3) =>
            let expo :=
              match s3 with
              | c :: r =>
                  if (c =? 101)%N || (c =? 69)%N then
                    let '(eneg, r1) :=
                      match r with
                      | sg :: r' =>
                          if (sg =? 45)%N then (true, r')
                          else if (sg =? 43)%N then (false, r')
                          else (false, r)
                      | [] => (false, r)
                      end in
                    let '(ep, s4) := span_digits r1 in
                    match ep with
                    | [] => None
                    | _ => Some ((if eneg then - digits_value ep else digits_value ep)%Z, s4)
                    end
                  else Some (0%Z, s3)
              | [] => Some (0%Z, s3)
              end in
            match expo with
            | None => None
            | Some (ex, s4) =>
                let m := digits_value (ip ++ fp) in
                Some (Dec (if negative then - m else m)%Z
                          (ex - Z.of_nat (List.length fp))%Z, s4)
            end
        end
  end.

Fixpoint strip_prefix (p s : JSString) : option JSString :=
  match p, s with
  | [], _ => Some s
  | a :: p', b :: s' => if (a =? b)%N then strip_prefix p' s' else None
  | _ :: _, [] => None
  end.

Definition parse_keyword (s : JSString) : option (JSValue * JSString) :=
  match strip_prefix (lit "true") s with
  | Some r => Some (JBool true, r)
  | None =>
      match strip_prefix (lit "false") s with
      | Some r => Some (JBool false, r)
      | None =>
          match strip_prefix (lit "null") s with
          | Some r => Some (JNull, r)
          | None => None
          end
      end
  end.

(** Recursive descent over the JSON grammar.  [fuel] bounds the depth of
    the calls; [parse_elems] and [parse_members] read what follows an
    opening bracket or brace that is not closed at once. *)
Fixpoint parse_value (fuel : nat) (s : JSString) : option (JSValue * JSString) :=
  match fuel with
  | O => None
  | S fuel' =>
      match skip_ws s with
      | [] => None
      | c :: r =>
          if (c =? 91)%N then
            match skip_ws r with
            | [] => None
            | c' :: r' =>
                if (c' =? 93)%N then Some (JArr [], r')
                else parse_elems fuel' (c' :: r') []
            end
          else if (c =? 123)%N then
            match skip_ws r with
            | [] => None
            | c' :: r' =>
                if (c' =? 125)%N then Some (JObj [], r')
                else parse_members fuel' (c' :: r') []
            end
          else if (c =? 34)%N then
            match parse_string_body r [] with
            | Some (str, rest) => Some (JStr str, rest)
            | None => None
            end
          else if (c =? 45)%N || is_digit c then
            match parse_number (c :: r) with
            | Some (n, rest) => Some (JNum n, rest)
            | None => None
            end
          else parse_keyword (c :: r)
      end
  end

with parse_elems (fuel : nat) (s : JSString) (acc : list JSValue)
  : option (JSValue * JSString) :=
  match fuel with
  | O => None
  | S fuel' =>
      match parse_value fuel' s with
      | None => None
      | Some (v, rest) =>
          match skip_ws rest with
          | [] => None
          | c :: r =>
              if (c =? 44)%N then parse_elems fuel' r (v :: acc)
              else if (c =? 93)%N then Some (JArr (rev (v :: acc)), r)
              else None
          end
      end
  end

with parse_members (fuel : nat) (s : JSString) (acc : list (JSString * JSValue))
  : option (JSValue * JSString) :=
  match fuel with
  | O => None
  | S fuel' =>
      match skip_ws s with
      | [] => None
      | q :: r =>
          if (q =? 34)%N then
            match parse_string_body r [] with
            | None => None
            | Some (k, rest) =>
                match skip_ws rest with
                | [] => None
                | colon :: r1 =>
                    if (colon =? 58)%N then
                      match parse_value fuel' r1 with
                      | None => None
                      | Some (v, rest1) =>
                          match skip_ws rest1 with
                          | [] => None
                          | c :: r2 =>
                              if (c =? 44)%N then
                                parse_members fuel' r2 (assoc_set k v acc)
                              else if (c =? 125)%N then
                                Some (JObj (assoc_set k v acc), r2)
                              else None
                          end
                      end
                    else None
                end
            end
          else None
      end
  end.

(** [JSON.parse(text)]: one value, surrounded by white space only;
    anything else is a [SyntaxError].  The fuel is all the parser can use
    on [text] ([parse_enough_fuel] below). *)
Definition parse (text : JSString) : Completion JSValue :=
  match parse_value (2 * List.length text + 2) text with
  | Some (v, rest) =>
      match skip_ws rest with
      | [] => Return v
      | _ :: _ => Throw SyntaxError
      end
  | None => Throw SyntaxError
  end.

(** [QuoteJSONString]: short escapes, [\u00xx] for the other control
    characters and [\udxxx] for a surrogate that is not part of a pair. *)
Definition hex_digit (n : N) : N := (if n <? 10 then 48 + n else 87 + n)%N.

Definition unicode_escape (c : N) : JSString :=
  [92; 117; hex_digit (c / 4096); hex_digit ((c / 256) mod 16);
   hex_digit ((c / 16) mod 16); hex_digit (c mod 16)]%N.

Definition is_high_surrogate (c : N) : bool := ((55296 <=? c) && (c <=? 56319))%N.
Definition is_low_surrogate (c : N) : bool := ((56320 <=? c) && (c <=? 57343))%N.

Definition quote_unit (c : N) : JSString :=
  (if c =? 8 then [92; 98]
   else if c =? 9 then [92; 116]
   else if c =? 10 then [92; 110]
   else if c =? 12 then [92; 102]
   else if c =? 13 then [92; 114]
   else if c =? 34 then [92; 34]
   else if c =? 92 then [92; 92]
   else if c <? 32 then unicode_escape c
   else if is_high_surrogate c || is_low_surrogate c then unicode_escape c
   else [c])%N.

Fixpoint quote_units (s : JSString) : JSString :=
  match s with
  | [] => []
  | c :: r =>
      if is_high_surrogate c then
        match r with
        | d :: r' =>
            if is_low_surrogate d then c :: d :: quote_units r'
            else quote_unit c ++ quote_units r
        | [] => quote_unit c
        end
      else quote_unit c ++ quote_units r
  end.

Definition quote (s : JSString) : JSString := [34%N] ++ quote_units s ++ [34%N].

Definition digits_of_Z (z : Z) : JSString :=
  lit (NilZero.string_of_int (Z.to_int z)).

Definition pad_zeros (k : nat) (ds : JSString) : JSString :=
  repeat 48%N (k - List.length ds) ++ ds.

(** Trailing zeros of a fraction are dropped: [m * 10^(-k)] with [k]
    decimals becomes the same value with fewer. *)
Fixpoint drop_trailing_zeros (k : nat) (m : Z) : nat * Z :=
  match k with
  | O => (O, m)
  | S k' => if (m mod 10 =? 0)%Z then drop_trailing_zeros k' (m / 10)%Z else (k, m)
  end.

(** A number in JSON text.  Finite numbers are written in plain decimal
    notation, which is what [Number::toString] gives for magnitudes from
    [1e-6] up to [1e21], integers first of all. *)
Definition number_to_string (n : JSNumber) : JSString :=
  match n with
  | NaN | Infinity _ => lit "null"
  | Dec m e =>
      if (0 <=? e)%Z then digits_of_Z (m * 10 ^ e)
      else
        let '(k, m') := drop_trailing_zeros (Z.to_nat (- e)) m in
        match k with
        | O => digits_of_Z m'
        | S _ =>
            let p := (10 ^ Z.of_nat k)%Z in
            (if (m' <? 0)%Z then [45%N] else [])
              ++ digits_of_Z (Z.abs m' / p) ++ [46%N]
              ++ pad_zeros k (digits_of_Z (Z.abs m' mod p))
        end
  end.

Fixpoint join (sep : JSString) (parts : list JSString) : JSString :=
  match parts with
  | [] => []
  | [x] => x
  | x :: r => x ++ sep ++ join sep r
  end.

(** [JSON.stringify(value)] without indentation.  In an array
    [undefined] is written [null]; a property whose value is [undefined]
    is left out. *)
Fixpoint stringify (v : JSValue) : JSString :=
  match v with
  | JUndefined | JNull => lit "null"
  | JBool true => lit "true"
  | JBool false => lit "false"
  | JNum n => number_to_string n
  | JStr s => quote s
  | JArr elems =>
      lit "[" ++ join (lit ",") (map stringify elems) ++ lit "]"
  | JObj props =>
      lit "{"
        ++ join (lit ",")
             ((fix members (ps : list (JSString * JSValue)) : list JSString :=
                 match ps with
                 | [] => []
                 | (k, JUndefined) :: r => members r
                 | (k, x) :: r => (quote k ++ lit ":" ++ stringify x) :: members r
                 end) props)
        ++ lit "}"
  end.

End JSON.

(** ** The component *)

Module App.
Import JS.

(** *** Data *)

(** [status: "Pending" | "Completed"] *)
Inductive Status := Pending | Completed.

(** [interface Todo].  An [id] is a time value, [Date.now()]: an integral
    number of milliseconds. *)
Record Todo := { id : Z; text : JSString; status : Status }.

(** The value of the [Status] select: ["All" | "Pending" | "Completed"]. *)
Inductive Filter := All | OnlyPending | OnlyCompleted.

Definition status_name (s : Status) : JSString :=
  match s with
  | Pending => lit "Pending"
  | Completed => lit "Completed"
  end.

Definition filter_name (f : Filter) : JSString :=
  match f with
  | All => lit "All"
  | OnlyPending => lit "Pending"
  | OnlyCompleted => lit "Completed"
  end.

(** A [Todo], and a [Todo[]], as the runtime values they are. *)
Definition Todo_to_js (t : Todo) : JSValue :=
  JObj [ (lit "id", JNum (Dec (id t) 0));
         (lit "text", JStr (text t));
         (lit "status", JStr (status_name (status t))) ].

Definition Todos_to_js (l : list Todo) : JSValue := JArr (map Todo_to_js l).

(** Whether a value has the shape [interface Todo] declares. *)
Definition is_Todo (v : JSValue) : bool :=
  match v with
  | JObj _ =>
      match get v (lit "id"), get v (lit "text"), get v (lit "status") with
      | JNum _, JStr _, JStr s =>
          string_eqb s (lit "Pending") || string_eqb s (lit "Completed")
      | _, _, _ => false
      end
  | _ => false
  end.

Definition is_Todos (v : JSValue) : bool :=
  match v with
  | JArr elems => forallb is_Todo elems
  | _ => false
  end.

(** The component's state: the three [useState] cells. *)
Record State := {
  todos : list Todo;
  newTodo : JSString;
  filter : Filter
}.

(** [useState<Todo[]>([])], [useState("")], [useState("All")] *)
Definition initial : State := {| todos := []; newTodo := []; filter := All |}.

(** *** The outside world *)

(** A promise, by the way it settles. *)
Inductive Promise (A : Type) :=
| Fulfilled (a : A)
| Rejected (e : Exn).
Arguments Fulfilled {A} a.
Arguments Rejected {A} e.

(** [window.electronAPI], by how the host answers. *)
Record ElectronAPI := {
  getOfflineData : Promise JSValue;
  saveOfflineData : JSValue -> Promise unit
}.

(** [Notification.permission] *)
Inductive Permission := granted | denied | default.

Definition Permission_eqb (a b : Permission) : bool :=
  match a, b with
  | granted, granted | denied, denied | default, default => true
  | _, _ => false
  end.

(** What a handler finds around it when it runs.  [localStorage] and the
    Notification API are there; reading them and showing a notification do
    not throw. *)
Record Env := {
  electronAPI : option ElectronAPI;
  (** [localStorage.getItem(key)], [None] for [null] *)
  getItem : JSString -> option JSString;
  (** [localStorage.setItem(key, value)]: [Some e] when it throws [e] *)
  setItem : JSString -> JSString -> option Exn;
  (** [Date.now()] *)
  Date_now : Z;
  (** the user's answer when asked for the permission to notify *)
  answer : Permission
}.

(** What a handler does to the outside. *)
Inductive Effect :=
| SetTodos (updatedTodos : list Todo)
| SetTodosAny (value : JSValue)
| SetNewTodo (value : JSString)
| SetFilter (value : Filter)
| GetOfflineData
| SaveOfflineData (data : JSValue)
| ElectronNotification (title body : JSString)
| GetItem (key : JSString)
| SetItem (key value : JSString)
| RequestPermission
| NewNotification (title body : JSString)
| ConsoleError (message : JSString) (error : Exn)
| UnhandledRejection (error : Exn).

(** *** Computations

    A computation runs in a context: the notification permission of the
    moment, and whether the event handler that started it has returned
    already, as it has for the code behind an [await] and for the callback
    of a [then].  It returns or throws, leaves a context, and has effects
    of two kinds: those that happen [now], before the handler returns, and
    those that happen [later].  The effects that happen later are listed in
    program order; the order in which the runtime takes them is its own. *)

Record Context := {
  permission : Permission;
  deferred : bool
}.

(** The context in which an event handler starts. *)
Definition start (p : Permission) : Context :=
  {| permission := p; deferred := false |}.

Record Outcome (A : Type) := {
  completion : Completion A;
  context : Context;
  now : list Effect;
  later : list Effect
}.

(** All the effects, those of later after those of now. *)
Definition effects {A} (o : Outcome A) : list Effect := now o ++ later o.

Definition M (A : Type) : Type := Context -> Outcome A.

Definition ret {A} (a : A) : M A :=
  fun c => {| completion := Return a; context := c; now := []; later := [] |}.

Definition throw {A} (e : Exn) : M A :=
  fun c => {| completion := Throw e; context := c; now := []; later := [] |}.

Definition bind {A B} (m : M A) (k : A -> M B) : M B :=
  fun c =>
    let o := m c in
    match completion o with
    | Return a =>
        let o' := k a (context o) in
        {| completion := completion o';
           context := context o';
           now := now o ++ now o';
           later := later o ++ later o' |}
    | Throw e =>
        {| completion := Throw e;
           context := context o;
           now := now o;
           later := later o |}
    end.

Declare Scope js_scope.
Delimit Scope js_scope with js.
Notation "x <- m ;; k" := (bind m (fun x => k))
  (at level 61, m at next level, right associativity) : js_scope.
Notation "m ;; k" := (bind m (fun _ => k))
  (at level 61, right associativity) : js_scope.
Local Open Scope js_scope.

Definition emit (ev : Effect) : M unit :=
  fun c =>
    {| completion := Return tt;
       context := c;
       now := if deferred c then [] else [ev];
       later := if deferred c then [ev] else [] |}.

(** [try { body } catch (error) { handler }] *)
Definition try_catch {A} (body : M A) (handler : Exn -> M A) : M A :=
  fun c =>
    let o := body c in
    match completion o with
    | Return _ => o
    | Throw e =>
        let o' := handler e (context o) in
        {| completion := completion o';
           context := context o';
           now := now o ++ now o';
           later := later o ++ later o' |}
    end.

(** The call of an [async] function: it does not throw, what its body
    throws rejects the promise it returns; the caller goes on where it
    was, also when the body has come to an [await]. *)
Definition async {A} (body : M A) : M (Promise A) :=
  fun c =>
    let o := body c in
    {| completion := Return match completion o with
                            | Return a => Fulfilled a
                            | Throw e => Rejected e
                            end;
       context := {| permission := permission (context o);
                     deferred := deferred c |};
       now := now o;
       later := later o |}.

(** [await p]: what follows runs later. *)
Definition await {A} (p : Promise A) : M A :=
  fun c =>
    {| completion := match p with
                     | Fulfilled a => Return a
                     | Rejected e => Throw e
                     end;
       context := {| permission := permission c; deferred := true |};
       now := [];
       later := [] |}.

(** What the runtime reports, later, of a promise that was dropped. *)
Definition report {A} (p : Promise A) : list Effect :=
  match p with
  | Fulfilled _ => []
  | Rejected e => [UnhandledRejection e]
  end.

(** A promise that is dropped: no [await], no [catch].  Its rejection is
    reported by the runtime as unhandled and reaches nobody. *)
Definition dropped {A} (p : Promise A) : M unit :=
  fun c => {| completion := Return tt; context := c; now := []; later := report p |}.

(** [p.then(callback)], the promise it returns being dropped: the
    callback runs later, if [p] is fulfilled. *)
Definition then_ {A} (p : Promise A) (callback : A -> M unit) : M unit :=
  fun c =>
    match p with
    | Fulfilled a =>
        let o := callback a {| permission := permission c; deferred := true |} in
        {| completion := Return tt;
           context := {| permission := permission (context o);
                         deferred := deferred c |};
           now := [];
           later := now o ++ later o
                      ++ match completion o with
                         | Return _ => []
                         | Throw e => [UnhandledRejection e]
                         end |}
    | Rejected e =>
        {| completion := Return tt; context := c; now := [];
           later := [UnhandledRejection e] |}
    end.

(** [if (c) { body }] *)
Definition when (c : bool) (body : M unit) : M unit :=
  if c then body else ret tt.

(** *** Calls to the outside *)

Definition electron_getOfflineData (api : ElectronAPI) : M (Promise JSValue) :=
  emit GetOfflineData ;; ret (getOfflineData api).

Definition electron_saveOfflineData (api : ElectronAPI) (data : JSValue)
  : M (Promise unit) :=
  emit (SaveOfflineData data) ;; ret (saveOfflineData api data).

Definition localStorage_getItem (env : Env) (key : JSString) : M (option JSString) :=
  emit (GetItem key) ;; ret (getItem env key).

Definition localStorage_setItem (env : Env) (key value : JSString) : M unit :=
  emit (SetItem key value) ;;
  match setItem env key value with
  | Some e => throw e
  | None => ret tt
  end.

Definition JSON_parse (text : JSString) : M JSValue :=
  match JSON.parse text with
  | Return v => ret v
  | Throw e => throw e
  end.

Definition Notification_permission : M Permission :=
  fun c => {| completion := Return (permission c); context := c; now := []; later := [] |}.

(** [Notification.requestPermission()]: the user is asked only while the
    permission is [default]; the answer becomes the permission. *)
Definition Notification_requestPermission (env : Env) : M (Promise Permission) :=
  fun c =>
    let p' := match permission c with
              | default => answer env
              | p => p
              end in
    bind (emit RequestPermission) (fun _ => ret (Fulfilled p'))
      {| permission := p'; deferred := deferred c |}.

(** *** The handlers *)

(** [loadTodos], lines 52-68 *)
Definition loadTodos (env : Env) : M (Promise unit) :=
  async
    match electronAPI env with
    | Some api =>
        try_catch
          (p <- electron_getOfflineData api ;;
           data <- await p ;;
           when (truthy data && truthy (get data (lit "todos")))
             (emit (SetTodosAny (get data (lit "todos")))))
          (fun error => emit (ConsoleError (lit "Failed to load todos:") error))
    | None =>
        storedTodos <- localStorage_getItem env (lit "todos") ;;
        match storedTodos with
        | Some s =>
            when (truthy (JStr s))
              (value <- JSON_parse s ;; emit (SetTodosAny value))
        | None => ret tt
        end
    end.

(** [saveTodos], lines 70-76 *)
Definition saveTodos (env : Env) (updatedTodos : list Todo) : M (Promise unit) :=
  async
    match electronAPI env with
    | Some api =>
        p <- electron_saveOfflineData api
               (JObj [(lit "todos", Todos_to_js updatedTodos)]) ;;
        await p
    | None =>
        localStorage_setItem env (lit "todos")
          (JSON.stringify (Todos_to_js updatedTodos))
    end.

(** [showWebNotification], lines 139-143 *)
Definition showWebNotification (title body : JSString) : M unit :=
  p <- Notification_permission ;;
  when (Permission_eqb p granted) (emit (NewNotification title body)).

(** [showNotification], lines 145-159 *)
Definition showNotification (env : Env) (title body : JSString) : M unit :=
  match electronAPI env with
  | Some _ => emit (ElectronNotification title body)
  | None =>
      p <- Notification_permission ;;
      if Permission_eqb p granted then showWebNotification title body
      else
        asked <- Notification_requestPermission env ;;
        then_ asked (fun permission =>
          when (Permission_eqb permission granted)
            (showWebNotification title body))
  end.

(** [addTodo], lines 78-93 *)
Definition addTodo (env : Env) (st : State) : M unit :=
  when (truthy (JStr (trim (newTodo st))))
    (let updatedTodos :=
       todos st ++ [ {| id := Date_now env;
                        text := trim (newTodo st);
                        status := Pending |} ] in
     emit (SetTodos updatedTodos) ;;
     saved <- saveTodos env updatedTodos ;;
     dropped saved ;;
     emit (SetNewTodo []) ;;
     showNotification env (lit "Todo Added") (lit "A new todo has been added.")).

(** [deleteTodo], lines 95-100 *)
Definition deleteTodo (env : Env) (st : State) (id0 : Z) : M unit :=
  let updatedTodos :=
    List.filter (fun todo => negb (id todo =? id0)%Z) (todos st) in
  emit (SetTodos updatedTodos) ;;
  saved <- saveTodos env updatedTodos ;;
  dropped saved ;;
  showNotification env (lit "Todo Deleted") (lit "A todo has been deleted.").

(** [`${x?.status}`]: [undefined] is written out as such. *)
Definition status_in_template (found : option Todo) : JSString :=
  match found with
  | Some todo => status_name (status todo)
  | None => lit "undefined"
  end.

(** The copy of a record with the other status: the object the toggle
    builds from [...todo] and the new [status]. *)
Definition toggled (todo : Todo) : Todo :=
  {| id := id todo;
     text := text todo;
     status := match status todo with
               | Pending => Completed
               | Completed => Pending
               end |}.

(** [toggleTodoStatus], lines 118-137 *)
Definition toggleTodoStatus (env : Env) (st : State) (id0 : Z) : M unit :=
  let updatedTodos :=
    map (fun todo => if (id todo =? id0)%Z then toggled todo else todo)
      (todos st) in
  emit (SetTodos updatedTodos) ;;
  saved <- saveTodos env updatedTodos ;;
  dropped saved ;;
  showNotification env (lit "Todo Status Updated")
    (lit "A todo has been marked as "
       ++ status_in_template
            (find (fun todo => (id todo =? id0)%Z) updatedTodos)
       ++ lit ".").

(** [filteredTodos], lines 178-179 *)
Definition filteredTodos (st : State) : list Todo :=
  if string_eqb (filter_name (filter st)) (lit "All") then todos st
  else List.filter
         (fun todo => string_eqb (status_name (status todo)) (filter_name (filter st)))
         (todos st).

(** *** Rendering: the state a handler leaves *)

Definition status_of_name (s : JSString) : option Status :=
  if string_eqb s (lit "Pending") then Some Pending
  else if string_eqb s (lit "Completed") then Some Completed
  else None.

(** Reading a value back at type [Todo]: the inverse of [Todo_to_js]. *)
Definition Todo_of_js (v : JSValue) : option Todo :=
  match v with
  | JObj [(k1, JNum (Dec z 0%Z)); (k2, JStr t); (k3, JStr s)] =>
      if string_eqb k1 (lit "id") && string_eqb k2 (lit "text")
         && string_eqb k3 (lit "status")
      then option_map (fun st => {| id := z; text := t; status := st |})
             (status_of_name s)
      else None
  | _ => None
  end.

Fixpoint Todos_of_list (elems : list JSValue) : option (list Todo) :=
  match elems with
  | [] => Some []
  | v :: r =>
      match Todo_of_js v, Todos_of_list r with
      | Some t, Some l => Some (t :: l)
      | _, _ => None
      end
  end.

Definition Todos_of_js (v : JSValue) : option (list Todo) :=
  match v with
  | JArr elems => Todos_of_list elems
  | _ => None
  end.

(** One state update.  A value of type [any] put into [todos] is followed
    only when it is a [Todo[]]. *)
Definition update (st : State) (ev : Effect) : option State :=
  match ev with
  | SetTodos l =>
      Some {| todos := l; newTodo := newTodo st; filter := filter st |}
  | SetTodosAny v =>
      option_map
        (fun l => {| todos := l; newTodo := newTodo st; filter := filter st |})
        (Todos_of_js v)
  | SetNewTodo s =>
      Some {| todos := todos st; newTodo := s; filter := filter st |}
  | SetFilter f =>
      Some {| todos := todos st; newTodo := newTodo st; filter := f |}
  | _ => Some st
  end.

Fixpoint next_state (st : State) (evs : list Effect) : option State :=
  match evs with
  | [] => Some st
  | ev :: r =>
      match update st ev with
      | Some st' => next_state st' r
      | None => None
      end
  end.

(** The runtime value of [todos] after the updates in [evs], whatever its
    type. *)
Fixpoint todos_value (current : JSValue) (evs : list Effect) : JSValue :=
  match evs with
  | [] => current
  | SetTodos l :: r => todos_value (Todos_to_js l) r
  | SetTodosAny v :: r => todos_value v r
  | _ :: r => todos_value current r
  end.

(** *** Events

    What the rendered component reacts to (lines 188-253): typing in the
    text field, the add button or the Enter key, a confirmed click on a
    delete button, a click on a toggle button, the status select. *)
Inductive Event :=
| Change (value : JSString)
| Add
| Delete (id0 : Z)
| Toggle (id0 : Z)
| Select (value : Filter).

Definition handle (env : Env) (st : State) (ev : Event) : M unit :=
  match ev with
  | Change value => emit (SetNewTodo value)
  | Add => addTodo env st
  | Delete id0 => deleteTodo env st id0
  | Toggle id0 => toggleTodoStatus env st id0
  | Select value => emit (SetFilter value)
  end.

Definition step (env : Env) (p : Permission) (st : State) (ev : Event)
  : option State :=
  next_state st (effects (handle env st ev (start p))).

(** The component when it is mounted: [useEffect(() => { loadTodos(); }, [])]. *)
Definition mount (env : Env) : M unit :=
  loading <- loadTodos env ;; dropped loading.

End App.

(** * The rest of the component *)

Module Dialogs.

Import JS App.
Local Open Scope js_scope.

(** The two confirmation dialogs, by their answers: the host's
    [showConfirmDialog], a promise, and the browser's [window.confirm].
    Showing a dialog is not among the effects that are recorded. *)
Record Dialog := {
  showConfirmDialog : JSString -> Promise JSValue;
  confirm : JSString -> bool
}.

Definition delete_question : JSString :=
  lit "Are you sure you want to delete this task?".

(** [confirmDelete], lines 102-116 *)
Definition confirmDelete (env : Env) (dialog : Dialog) (st : State) (id0 : Z)
  : M (Promise unit) :=
  async
    (shouldDelete <-
       match electronAPI env with
       | Some _ => await (showConfirmDialog dialog delete_question)
       | None => ret (JBool (confirm dialog delete_question))
       end ;;
     when (truthy shouldDelete) (deleteTodo env st id0)).

Definition enabled_title : JSString := lit "Notifications Enabled".
Definition enabled_body : JSString :=
  lit "You will now receive notifications for todo list actions.".

(** [enableNotifications], lines 161-176 *)
Definition enableNotifications (env : Env) : M (Promise unit) :=
  async
    match electronAPI env with
    | Some _ => emit (ElectronNotification enabled_title enabled_body)
    | None =>
        asked <- Notification_requestPermission env ;;
        permission <- await asked ;;
        when (Permission_eqb permission granted)
          (showWebNotification enabled_title enabled_body)
    end.

(** A click on the delete button of a record, line 241, and on the button
    that enables the notifications, line 251: the promise of the handler
    is dropped. *)
Definition click_delete (env : Env) (dialog : Dialog) (st : State) (id0 : Z) : M unit :=
  asked <- confirmDelete env dialog st id0 ;; dropped asked.

Definition click_enable (env : Env) : M unit :=
  enabling <- enableNotifications env ;; dropped enabling.

End Dialogs.

(** * Properties *)

Import JS App Dialogs.
Local Open Scope js_scope.

(** ** The parser *)

Module JSONFacts.
Import JSON.

Lemma skip_ws_length s : (List.length (skip_ws s) <= List.length s)%nat.
Proof.
  induction s as [|c r IH]; cbn; [lia|].
  destruct (is_ws c); cbn; lia.
Qed.

Lemma span_digits_length s :
  List.length s = (List.length (fst (span_digits s)) + List.length (snd (span_digits s)))%nat.
Proof.
  induction s as [|c r IH]; cbn; [reflexivity|].
  destruct (is_digit c); cbn; [|reflexivity].
  destruct (span_digits r) as [ds rest]. cbn in *. lia.
Qed.

Lemma parse_string_body_length s : forall acc k rest,
  parse_string_body s acc = Some (k, rest) ->
  (List.length rest < List.length s)%nat.
Proof.
  induction s as [s IH] using (well_founded_induction
    (Wf_nat.well_founded_ltof _ (@List.length N))).
  unfold Wf_nat.ltof in IH.
  intros acc k rest H. destruct s as [|c r]; [discriminate|].
  cbn in H.
  destruct (c =? 34)%N.
  { injection H as _ <-. cbn. lia. }
  destruct (c =? 92)%N.
  { destruct r as [|e r1]; [discriminate|].
    destruct (e =? 117)%N.
    - destruct r1 as [|h1 [|h2 [|h3 [|h4 r2]]]]; try discriminate.
      destruct (hex4 h1 h2 h3 h4); [|discriminate].
      apply IH in H; cbn in *; lia.
    - destruct (escape_value e); [|discriminate].
      apply IH in H; cbn in *; lia. }
  destruct (c <? 32)%N; [discriminate|].
  apply IH in H; cbn in *; lia.
Qed.

Lemma parse_number_length s n rest :
  parse_number s = Some (n, rest) -> (List.length rest < List.length s)%nat.
Proof.
  unfold parse_number. intros H.
  set (sg := match s with
             | c :: r => if (c =? 45)%N then (true, r) else (false, s)
             | [] => (false, s)
             end) in H.
  assert (Hs1 : (List.length (snd sg) <= List.length s)%nat).
  { subst sg. destruct s as [|c r]; cbn; [lia|]. destruct (c =? 45)%N; cbn; lia. }
  destruct sg as [negative s1]. cbn in Hs1.
  pose proof (span_digits_length s1) as L1.
  destruct (span_digits s1) as [ip s2]. cbn in L1.
  destruct ip as [|d ds]; [discriminate|].
  destruct ((d =? 48)%N && _); [discriminate|].
  assert (Hf : forall fp s3,
    match s2 with
    | c :: r =>
        if (c =? 46)%N then
          let '(fp, s3) := span_digits r in
          match fp with [] => None | _ => Some (fp, s3) end
        else Some ([], s2)
    | [] => Some ([], s2)
    end = Some (fp, s3) -> (List.length s3 <= List.length s2)%nat).
  { intros fp s3 E. destruct s2 as [|c r]; [injection E as _ <-; lia|].
    destruct (c =? 46)%N; [|injection E as _ <-; lia].
    pose proof (span_digits_length r) as L. destruct (span_digits r) as [fp' s3'].
    destruct fp'; [discriminate|]. injection E as _ <-. cbn in *. lia. }
  destruct (match s2 with [] => _ | _ => _ end) as [[fp s3]|] eqn:Efrac; [|discriminate].
  pose proof (Hf _ _ eq_refl) as Lf.
  assert (Hx : forall ex s4,
    match s3 with
    | c :: r =>
        if (c =? 101)%N || (c =? 69)%N then
          let '(eneg, r1) :=
            match r with
            | sg :: r' =>
                if (sg =? 45)%N then (true, r')
                else if (sg =? 43)%N then (false, r')
                else (false, r)
            | [] => (false, r)
            end in
          let '(ep, s4) := span_digits r1 in
          match ep with
          | [] => None
          | _ => Some ((if eneg then - digits_value ep else digits_value ep)%Z, s4)
          end
        else Some (0%Z, s3)
    | [] => Some (0%Z, s3)
    end = Some (ex, s4) -> (List.length s4 <= List.length s3)%nat).
  { intros ex s4 E. destruct s3 as [|c r]; [injection E as _ <-; lia|].
    destruct ((c =? 101)%N || (c =? 69)%N); [|injection E as _ <-; lia].
    set (sg2 := match r with
                | sg :: r' =>
                    if (sg =? 45)%N then (true, r')
                    else if (sg =? 43)%N then (false, r')
                    else (false, r)
                | [] => (false, r)
                end) in E.
    assert (Hr1 : (List.length (snd sg2) <= List.length r)%nat).
    { subst sg2. destruct r as [|x r']; cbn; [lia|].
      destruct (x =? 45)%N; cbn; [lia|]. destruct (x =? 43)%N; cbn; lia. }
    destruct sg2 as [eneg r1]. cbn in Hr1.
    pose proof (span_digits_length r1) as L. destruct (span_digits r1) as [ep s4'].
    destruct ep; [discriminate|]. injection E as _ <-. cbn in *. lia. }
  destruct (match s3 with [] => _ | _ => _ end) as [[ex s4]|] eqn:Eexp; [|discriminate].
  pose proof (Hx _ _ eq_refl) as Lx. injection H as _ <-. cbn in *. lia.
Qed.

Lemma strip_prefix_length p : forall s r,
  strip_prefix p s = Some r -> List.length s = (List.length p + List.length r)%nat.
Proof.
  induction p as [|a p IH]; intros s r H; cbn in H.
  - injection H as <-. reflexivity.
  - destruct s as [|b s]; [discriminate|].
    destruct (a =? b)%N; [|discriminate].
    apply IH in H. cbn. lia.
Qed.

Lemma parse_keyword_length s v rest :
  parse_keyword s = Some (v, rest) -> (List.length rest < List.length s)%nat.
Proof.
  unfold parse_keyword. intros H.
  destruct (strip_prefix (lit "true") s) eqn:E1.
  { injection H as _ <-. apply strip_prefix_length in E1. cbn in E1. lia. }
  destruct (strip_prefix (lit "false") s) eqn:E2.
  { injection H as _ <-. apply strip_prefix_length in E2. cbn in E2. lia. }
  destruct (strip_prefix (lit "null") s) eqn:E3; [|discriminate].
  injection H as _ <-. apply strip_prefix_length in E3. cbn in E3. lia.
Qed.

(** Every parser takes at least one code unit. *)
Lemma parse_length f :
  (forall s v rest, parse_value f s = Some (v, rest) ->
     (List.length rest < List.length s)%nat) /\
  (forall s acc v rest, parse_elems f s acc = Some (v, rest) ->
     (List.length rest < List.length s)%nat) /\
  (forall s acc v rest, parse_members f s acc = Some (v, rest) ->
     (List.length rest < List.length s)%nat).
Proof.
  induction f as [|f (IHv & IHe & IHm)]; [repeat split; discriminate|].
  repeat split.
  - intros s v rest H. cbn [parse_value] in H.
    pose proof (skip_ws_length s) as Ls.
    destruct (skip_ws s) as [|c r]; [discriminate|]. cbn in Ls.
    destruct (c =? 91)%N.
    { pose proof (skip_ws_length r) as Lr.
      destruct (skip_ws r) as [|c' r']; [discriminate|]. cbn in Lr.
      destruct (c' =? 93)%N; [injection H as _ <-; lia|].
      apply IHe in H. cbn in H. lia. }
    destruct (c =? 123)%N.
    { pose proof (skip_ws_length r) as Lr.
      destruct (skip_ws r) as [|c' r']; [discriminate|]. cbn in Lr.
      destruct (c' =? 125)%N; [injection H as _ <-; lia|].
      apply IHm in H. cbn in H. lia. }
    destruct (c =? 34)%N.
    { destruct (parse_string_body r []) as [[str rest']|] eqn:E; [|discriminate].
      injection H as _ <-. apply parse_string_body_length in E. lia. }
    destruct ((c =? 45)%N || is_digit c).
    { destruct (parse_number (c :: r)) as [[n rest']|] eqn:E; [|discriminate].
      injection H as _ <-. apply parse_number_length in E. cbn in E. lia. }
    apply parse_keyword_length in H. cbn in H. lia.
  - intros s acc v rest H. cbn [parse_elems] in H.
    destruct (parse_value f s) as [[v1 rest1]|] eqn:E; [|discriminate].
    apply IHv in E.
    pose proof (skip_ws_length rest1) as L1.
    destruct (skip_ws rest1) as [|c r]; [discriminate|]. cbn in L1.
    destruct (c =? 44)%N; [apply IHe in H; lia|].
    destruct (c =? 93)%N; [|discriminate].
    injection H as _ <-. lia.
  - intros s acc v rest H. cbn [parse_members] in H.
    pose proof (skip_ws_length s) as Ls.
    destruct (skip_ws s) as [|q r]; [discriminate|]. cbn in Ls.
    destruct (q =? 34)%N; [|discriminate].
    destruct (parse_string_body r []) as [[k rest0]|] eqn:Ek; [|discriminate].
    apply parse_string_body_length in Ek.
    pose proof (skip_ws_length rest0) as L0.
    destruct (skip_ws rest0) as [|colon r1]; [discriminate|]. cbn in L0.
    destruct (colon =? 58)%N; [|discriminate].
    destruct (parse_value f r1) as [[v1 rest1]|] eqn:E; [|discriminate].
    apply IHv in E.
    pose proof (skip_ws_length rest1) as L1.
    destruct (skip_ws rest1) as [|c r2]; [discriminate|]. cbn in L1.
    destruct (c =? 44)%N; [apply IHm in H; lia|].
    destruct (c =? 125)%N; [|discriminate].
    injection H as _ <-. lia.
Qed.

(** Fuel beyond twice the length of the text changes nothing. *)
Lemma parse_fuel f :
  (forall s f', (2 * List.length s + 1 <= f)%nat -> (f <= f')%nat ->
     parse_value f' s = parse_value f s) /\
  (forall s acc f', (2 * List.length s + 2 <= f)%nat -> (f <= f')%nat ->
     parse_elems f' s acc = parse_elems f s acc) /\
  (forall s acc f', (2 * List.length s + 2 <= f)%nat -> (f <= f')%nat ->
     parse_members f' s acc = parse_members f s acc).
Proof.
  induction f as [|f (IHv & IHe & IHm)]; [repeat split; intros; lia|].
  repeat split.
  - intros s [|f'] Hf Hle; [lia|]. cbn [parse_value].
    pose proof (skip_ws_length s) as Ls.
    destruct (skip_ws s) as [|c r]; [reflexivity|]. cbn in Ls.
    destruct (c =? 91)%N.
    { pose proof (skip_ws_length r) as Lr.
      destruct (skip_ws r) as [|c' r']; [reflexivity|]. cbn in Lr.
      destruct (c' =? 93)%N; [reflexivity|].
      apply IHe; cbn; lia. }
    destruct (c =? 123)%N.
    { pose proof (skip_ws_length r) as Lr.
      destruct (skip_ws r) as [|c' r']; [reflexivity|]. cbn in Lr.
      destruct (c' =? 125)%N; [reflexivity|].
      apply IHm; cbn; lia. }
    reflexivity.
  - intros s acc [|f'] Hf Hle; [lia|]. cbn [parse_elems].
    rewrite (IHv s f') by lia.
    destruct (parse_value f s) as [[v1 rest1]|] eqn:E; [|reflexivity].
    apply (proj1 (parse_length f)) in E.
    pose proof (skip_ws_length rest1) as L1.
    destruct (skip_ws rest1) as [|c r]; [reflexivity|]. cbn in L1.
    destruct (c =? 44)%N; [|reflexivity].
    apply IHe; lia.
  - intros s acc [|f'] Hf Hle; [lia|]. cbn [parse_members].
    pose proof (skip_ws_length s) as Ls.
    destruct (skip_ws s) as [|q r]; [reflexivity|]. cbn in Ls.
    destruct (q =? 34)%N; [|reflexivity].
    destruct (parse_string_body r []) as [[k rest0]|] eqn:Ek; [|reflexivity].
    apply parse_string_body_length in Ek.
    pose proof (skip_ws_length rest0) as L0.
    destruct (skip_ws rest0) as [|colon r1]; [reflexivity|]. cbn in L0.
    destruct (colon =? 58)%N; [|reflexivity].
    rewrite (IHv r1 f') by lia.
    destruct (parse_value f r1) as [[v1 rest1]|] eqn:E; [|reflexivity].
    apply (proj1 (parse_length f)) in E.
    pose proof (skip_ws_length rest1) as L1.
    destruct (skip_ws rest1) as [|c r2]; [reflexivity|]. cbn in L1.
    destruct (c =? 44)%N; [|reflexivity].
    apply IHm; lia.
Qed.

(** [parse] has all the fuel it can use: with more, the result is the
    same. *)
Lemma parse_enough_fuel text f :
  (2 * List.length text + 2 <= f)%nat ->
  parse_value f text = parse_value (2 * List.length text + 2) text.
Proof.
  intros H. apply (proj1 (parse_fuel (2 * List.length text + 2))); lia.
Qed.

End JSONFacts.

(** ** Running the helpers *)

(** The call [saveTodos] makes to the active backend, and how the promise
    it returns settles. *)
Definition save_call (env : Env) (l : list Todo) : Effect :=
  match electronAPI env with
  | Some _ => SaveOfflineData (JObj [(lit "todos", Todos_to_js l)])
  | None => SetItem (lit "todos") (JSON.stringify (Todos_to_js l))
  end.

Definition save_result (env : Env) (l : list Todo) : Promise unit :=
  match electronAPI env with
  | Some api => saveOfflineData api (JObj [(lit "todos", Todos_to_js l)])
  | None =>
      match setItem env (lit "todos") (JSON.stringify (Todos_to_js l)) with
      | Some e => Rejected e
      | None => Fulfilled tt
      end
  end.

(** [saveTodos] calls the backend at once and never throws. *)
Lemma saveTodos_run env l p :
  saveTodos env l (start p) =
    {| completion := Return (save_result env l);
       context := start p;
       now := [save_call env l];
       later := [] |}.
Proof.
  unfold saveTodos, save_result, save_call, async, bind, await,
    electron_saveOfflineData, localStorage_setItem.
  destruct (electronAPI env) as [api|]; cbn.
  - destruct (saveOfflineData api _) as [[]|e]; reflexivity.
  - destruct (setItem env _ _); reflexivity.
Qed.

(** Effects of the Notification API and of the host's notification
    channel. *)
Definition is_notification (ev : Effect) : bool :=
  match ev with
  | ElectronNotification _ _ | RequestPermission | NewNotification _ _ => true
  | _ => false
  end.

Lemma showNotification_returns env title body p :
  completion (showNotification env title body (start p)) = Return tt.
Proof.
  unfold showNotification, Notification_requestPermission.
  destruct (electronAPI env); [reflexivity|].
  destruct p; cbn; try destruct (answer env); reflexivity.
Qed.

(** What [showNotification] does, by channel and permission: at once, and
    once the user has answered. *)
Lemma showNotification_now env title body p :
  now (showNotification env title body (start p)) =
    match electronAPI env with
    | Some _ => [ElectronNotification title body]
    | None =>
        match p with
        | granted => [NewNotification title body]
        | _ => [RequestPermission]
        end
    end.
Proof.
  unfold showNotification, Notification_requestPermission.
  destruct (electronAPI env); [reflexivity|].
  destruct p; cbn; try destruct (answer env); reflexivity.
Qed.

Lemma showNotification_later env title body p :
  later (showNotification env title body (start p)) =
    match electronAPI env, p, answer env with
    | None, default, granted => [NewNotification title body]
    | _, _, _ => []
    end.
Proof.
  unfold showNotification, Notification_requestPermission.
  destruct (electronAPI env); [destruct p, (answer env); reflexivity|].
  destruct p; cbn; try destruct (answer env); reflexivity.
Qed.

Lemma showNotification_effects env title body p :
  forallb is_notification (now (showNotification env title body (start p))) = true /\
  forallb is_notification (later (showNotification env title body (start p))) = true.
Proof.
  rewrite showNotification_now, showNotification_later.
  destruct (electronAPI env), p, (answer env); split; reflexivity.
Qed.

(** The sequences the three mutations compute. *)
Definition added (env : Env) (st : State) : list Todo :=
  todos st ++ [ {| id := Date_now env; text := trim (newTodo st); status := Pending |} ].

Definition deleted (st : State) (id0 : Z) : list Todo :=
  List.filter (fun todo => negb (id todo =? id0)%Z) (todos st).

Definition toggled_all (st : State) (id0 : Z) : list Todo :=
  map (fun todo => if (id todo =? id0)%Z then toggled todo else todo) (todos st).

Arguments lit : simpl never.
Arguments saveTodos : simpl never.
Arguments showNotification : simpl never.

Ltac fold_start :=
  repeat match goal with
         | |- context [ {| permission := ?q; deferred := false |} ] =>
             change {| permission := q; deferred := false |} with (start q)
         end.

Ltac run_mutation :=
  unfold effects, bind, emit, when, dropped; cbn;
  fold_start; rewrite saveTodos_run; cbn; fold_start.

(** The effects of a mutation: at once the state update, the call of the
    save and the notification; later the report of a save that was
    rejected and the notification that waited for the user's answer. *)
Lemma addTodo_now env st p :
  trim (newTodo st) <> [] ->
  now (addTodo env st (start p)) =
    SetTodos (added env st) :: save_call env (added env st) :: SetNewTodo []
      :: now (showNotification env (lit "Todo Added")
                (lit "A new todo has been added.") (start p)).
Proof.
  intros Ht. unfold addTodo, added.
  destruct (trim (newTodo st)) as [|c r] eqn:E; [congruence|].
  run_mutation. reflexivity.
Qed.

Lemma addTodo_later env st p :
  trim (newTodo st) <> [] ->
  later (addTodo env st (start p)) =
    report (save_result env (added env st))
      ++ later (showNotification env (lit "Todo Added")
                  (lit "A new todo has been added.") (start p)).
Proof.
  intros Ht. unfold addTodo, added.
  destruct (trim (newTodo st)) as [|c r] eqn:E; [congruence|].
  run_mutation. reflexivity.
Qed.

Lemma addTodo_blank env st c :
  trim (newTodo st) = [] ->
  addTodo env st c = {| completion := Return tt; context := c; now := []; later := [] |}.
Proof. intros Ht. unfold addTodo. rewrite Ht. reflexivity. Qed.

Lemma deleteTodo_now env st id0 p :
  now (deleteTodo env st id0 (start p)) =
    SetTodos (deleted st id0) :: save_call env (deleted st id0)
      :: now (showNotification env (lit "Todo Deleted")
                (lit "A todo has been deleted.") (start p)).
Proof. unfold deleteTodo, deleted. run_mutation. reflexivity. Qed.

Lemma deleteTodo_later env st id0 p :
  later (deleteTodo env st id0 (start p)) =
    report (save_result env (deleted st id0))
      ++ later (showNotification env (lit "Todo Deleted")
                  (lit "A todo has been deleted.") (start p)).
Proof. unfold deleteTodo, deleted. run_mutation. reflexivity. Qed.

(** The body of the notification a toggle sends. *)
Definition toggle_body (st : State) (id0 : Z) : JSString :=
  lit "A todo has been marked as "
    ++ status_in_template (find (fun todo => (id todo =? id0)%Z) (toggled_all st id0))
    ++ lit ".".

Lemma toggleTodoStatus_now env st id0 p :
  now (toggleTodoStatus env st id0 (start p)) =
    SetTodos (toggled_all st id0) :: save_call env (toggled_all st id0)
      :: now (showNotification env (lit "Todo Status Updated")
                (toggle_body st id0) (start p)).
Proof. unfold toggleTodoStatus, toggled_all, toggle_body. run_mutation. reflexivity. Qed.

Lemma toggleTodoStatus_later env st id0 p :
  later (toggleTodoStatus env st id0 (start p)) =
    report (save_result env (toggled_all st id0))
      ++ later (showNotification env (lit "Todo Status Updated")
                  (toggle_body st id0) (start p)).
Proof. unfold toggleTodoStatus, toggled_all, toggle_body. run_mutation. reflexivity. Qed.

(** No event handler throws: whatever the save does stays in its
    promise. *)
Lemma handle_returns env st ev p :
  completion (handle env st ev (start p)) = Return tt.
Proof.
  destruct ev; cbn [handle]; try reflexivity.
  - unfold addTodo, when. destruct (truthy _); [|reflexivity].
    run_mutation. apply showNotification_returns.
  - unfold deleteTodo. run_mutation. apply showNotification_returns.
  - unfold toggleTodoStatus. run_mutation. apply showNotification_returns.
Qed.

(** ** Rendering *)

Definition is_state_update (ev : Effect) : bool :=
  match ev with
  | SetTodos _ | SetTodosAny _ | SetNewTodo _ | SetFilter _ => true
  | _ => false
  end.

Definition no_state_update (evs : list Effect) : Prop :=
  forallb (fun ev => negb (is_state_update ev)) evs = true.

Lemma next_state_other st evs :
  no_state_update evs -> next_state st evs = Some st.
Proof.
  unfold no_state_update.
  induction evs as [|ev evs IH]; cbn; [reflexivity|].
  intros H. apply andb_prop in H. destruct H as [Hev Hevs].
  destruct ev; cbn in Hev; try discriminate; cbn; auto.
Qed.

Lemma no_state_update_app evs evs' :
  no_state_update evs -> no_state_update evs' -> no_state_update (evs ++ evs').
Proof.
  unfold no_state_update. intros H H'. rewrite forallb_app, H, H'. reflexivity.
Qed.

Lemma report_other A (q : Promise A) : no_state_update (report q).
Proof. destruct q; reflexivity. Qed.

Lemma notification_other evs :
  forallb is_notification evs = true -> no_state_update evs.
Proof.
  unfold no_state_update.
  induction evs as [|ev evs IH]; cbn; [reflexivity|].
  intros H. apply andb_prop in H. destruct H as [Hev Hevs].
  rewrite IH by assumption. destruct ev; cbn in Hev; try discriminate; reflexivity.
Qed.

Lemma save_call_other env l : is_state_update (save_call env l) = false.
Proof. unfold save_call. destruct (electronAPI env); reflexivity. Qed.

Lemma next_state_cons_other st ev evs :
  is_state_update ev = false ->
  next_state st (ev :: evs) = next_state st evs.
Proof. destruct ev; cbn; intros H; try discriminate; reflexivity. Qed.

Lemma next_state_SetTodos st l evs :
  next_state st (SetTodos l :: evs) =
    next_state {| todos := l; newTodo := newTodo st; filter := filter st |} evs.
Proof. reflexivity. Qed.

Lemma next_state_SetNewTodo st s evs :
  next_state st (SetNewTodo s :: evs) =
    next_state {| todos := todos st; newTodo := s; filter := filter st |} evs.
Proof. reflexivity. Qed.

(** After the effects of a notification and the report of a save the state
    is what it was. *)
Lemma next_state_tail st env title body p (q : Promise unit) :
  next_state st
    (now (showNotification env title body (start p))
       ++ report q ++ later (showNotification env title body (start p)))
  = Some st.
Proof.
  destruct (showNotification_effects env title body p) as [Hn Hl].
  apply next_state_other.
  repeat apply no_state_update_app;
    auto using report_other, notification_other.
Qed.

Lemma step_Add env p st :
  trim (newTodo st) <> [] ->
  step env p st Add =
    Some {| todos := added env st; newTodo := []; filter := filter st |}.
Proof.
  intros Ht. unfold step, effects. cbn [handle].
  rewrite addTodo_now, addTodo_later by assumption.
  cbn [app]. rewrite next_state_SetTodos.
  rewrite next_state_cons_other by apply save_call_other.
  rewrite next_state_SetNewTodo. apply next_state_tail.
Qed.

Lemma step_Add_blank env p st :
  trim (newTodo st) = [] -> step env p st Add = Some st.
Proof.
  intros Ht. unfold step. cbn [handle].
  rewrite addTodo_blank by assumption. reflexivity.
Qed.

Lemma step_Delete env p st id0 :
  step env p st (Delete id0) =
    Some {| todos := deleted st id0; newTodo := newTodo st; filter := filter st |}.
Proof.
  unfold step, effects. cbn [handle].
  rewrite deleteTodo_now, deleteTodo_later.
  cbn [app]. rewrite next_state_SetTodos.
  rewrite next_state_cons_other by apply save_call_other.
  apply next_state_tail.
Qed.

Lemma step_Toggle env p st id0 :
  step env p st (Toggle id0) =
    Some {| todos := toggled_all st id0; newTodo := newTodo st; filter := filter st |}.
Proof.
  unfold step, effects. cbn [handle].
  rewrite toggleTodoStatus_now, toggleTodoStatus_later.
  cbn [app]. rewrite next_state_SetTodos.
  rewrite next_state_cons_other by apply save_call_other.
  apply next_state_tail.
Qed.

(** ** Adding *)

(** What a call of a handler evaluates to.  The handlers are functions
    without a [return] statement: a call that completes evaluates to
    [undefined]. *)
Definition call_value (o : Outcome unit) : option JSValue :=
  match completion o with
  | Return _ => Some JUndefined
  | Throw _ => None
  end.

(** What the specification says of an add: one record more, Pending, with
    the trimmed text, at the tail, and the operation returns the updated
    sequence. *)
Definition addTodo_returns_updated_sequence : Prop :=
  forall env p st,
    trim (newTodo st) <> [] ->
    exists st' new,
      step env p st Add = Some st' /\
      todos st' = todos st ++ [new] /\
      List.length (todos st') = S (List.length (todos st)) /\
      status new = Pending /\
      text new = trim (newTodo st) /\
      call_value (addTodo env st (start p)) = Some (Todos_to_js (todos st')).

(** C4, amended.  When the text field holds a text whose trimmed form is
    not empty, adding lengthens the sequence by exactly one record: the new
    record is Pending, carries the trimmed text and sits at the tail behind
    the old records.  [addTodo] itself returns nothing, a call of it
    evaluates to [undefined]: the updated sequence is what it hands to
    [setTodos], and so the [todos] of the next state. *)
Theorem addTodo_appends env p st :
  trim (newTodo st) <> [] ->
  exists st' new,
    step env p st Add = Some st' /\
    In (SetTodos (todos st')) (effects (addTodo env st (start p))) /\
    todos st' = todos st ++ [new] /\
    List.length (todos st') = S (List.length (todos st)) /\
    last (todos st') new = new /\
    id new = Date_now env /\
    status new = Pending /\
    text new = trim (newTodo st) /\
    completion (addTodo env st (start p)) = Return tt /\
    call_value (addTodo env st (start p)) = Some JUndefined.
Proof.
  intros Ht.
  exists {| todos := added env st; newTodo := []; filter := filter st |}.
  exists {| id := Date_now env; text := trim (newTodo st); status := Pending |}.
  split; [apply step_Add; assumption|].
  split; [unfold effects; rewrite addTodo_now by assumption; left; reflexivity|].
  pose proof (handle_returns env st Add p) as Hc. cbn [handle] in Hc.
  unfold call_value. rewrite Hc.
  cbn [todos]. unfold added.
  repeat split.
  - rewrite length_app. cbn. lia.
  - apply last_last.
Qed.

(** C5.  When the trimmed text is empty (the field is empty or holds white
    space only), adding does nothing: no effect at all, so no record is
    created and the state, its sequence included, is the same. *)
Theorem addTodo_blank_noop env p st :
  trim (newTodo st) = [] ->
  effects (addTodo env st (start p)) = [] /\
  completion (addTodo env st (start p)) = Return tt /\
  step env p st Add = Some st.
Proof.
  intros Ht. rewrite addTodo_blank by assumption.
  repeat split. apply step_Add_blank. assumption.
Qed.

(** ** Filtering *)

Definition with_filter (st : State) (f : Filter) : State :=
  {| todos := todos st; newTodo := newTodo st; filter := f |}.

Definition is_pending (todo : Todo) : bool :=
  match status todo with Pending => true | Completed => false end.

Lemma filteredTodos_All st : filteredTodos (with_filter st All) = todos st.
Proof. reflexivity. Qed.

Lemma filteredTodos_Pending st :
  filteredTodos (with_filter st OnlyPending) = List.filter is_pending (todos st).
Proof.
  unfold filteredTodos. cbn [filter todos with_filter].
  replace (string_eqb (filter_name OnlyPending) (lit "All")) with false
    by (vm_compute; reflexivity).
  apply filter_ext. intros t. unfold is_pending.
  destruct (status t); vm_compute; reflexivity.
Qed.

Lemma filteredTodos_Completed st :
  filteredTodos (with_filter st OnlyCompleted) =
    List.filter (fun todo => negb (is_pending todo)) (todos st).
Proof.
  unfold filteredTodos. cbn [filter todos with_filter].
  replace (string_eqb (filter_name OnlyCompleted) (lit "All")) with false
    by (vm_compute; reflexivity).
  apply filter_ext. intros t. unfold is_pending.
  destruct (status t); vm_compute; reflexivity.
Qed.

Lemma filter_split (A : Type) (f : A -> bool) (l : list A) :
  Permutation (List.filter f l ++ List.filter (fun a => negb (f a)) l) l.
Proof.
  induction l as [|a l IH]; cbn; [constructor|].
  destruct (f a); cbn.
  - constructor. exact IH.
  - symmetry. apply Permutation_cons_app. symmetry. exact IH.
Qed.

(** C6.  The Pending view and the Completed view together hold the records
    of the sequence, each as often as the sequence does, and no record is in
    both; the All view is the sequence itself.  [filteredTodos] is a
    function of the state that has no effect: it sets no state and calls no
    backend. *)
Theorem filteredTodos_partition st :
  Permutation
    (filteredTodos (with_filter st OnlyPending)
       ++ filteredTodos (with_filter st OnlyCompleted))
    (todos st) /\
  (forall t, In t (todos st) <->
     In t (filteredTodos (with_filter st OnlyPending)) \/
     In t (filteredTodos (with_filter st OnlyCompleted))) /\
  (forall t, ~ (In t (filteredTodos (with_filter st OnlyPending)) /\
                In t (filteredTodos (with_filter st OnlyCompleted)))) /\
  filteredTodos (with_filter st All) = todos st.
Proof.
  rewrite filteredTodos_Pending, filteredTodos_Completed, filteredTodos_All.
  split; [apply filter_split|].
  split; [|split; [|reflexivity]].
  - intros t. rewrite !filter_In. destruct (is_pending t); cbn; intuition congruence.
  - intros t. rewrite !filter_In. destruct (is_pending t); cbn; intuition congruence.
Qed.

(** ** Toggling *)

Lemma toggled_twice todo : toggled (toggled todo) = todo.
Proof. destruct todo as [i x []]; reflexivity. Qed.

Lemma toggled_all_twice st id0 f s :
  toggled_all {| todos := toggled_all st id0; newTodo := s; filter := f |} id0
    = todos st.
Proof.
  unfold toggled_all. cbn [todos]. rewrite map_map.
  rewrite <- (map_id (todos st)) at 2.
  apply map_ext. intros t.
  destruct (id t =? id0)%Z eqn:E.
  - cbn [toggled id]. rewrite E. apply toggled_twice.
  - rewrite E. reflexivity.
Qed.

Lemma toggled_all_absent st id0 :
  ~ In id0 (map id (todos st)) -> toggled_all st id0 = todos st.
Proof.
  intros Hn. unfold toggled_all.
  rewrite <- (map_id (todos st)) at 2.
  apply map_ext_in. intros t Ht.
  destruct (id t =? id0)%Z eqn:E; [|reflexivity].
  exfalso. apply Hn. apply Z.eqb_eq in E. rewrite <- E. apply in_map. exact Ht.
Qed.

(** C7.  For an id that is in the sequence, one toggle turns every record
    with that id from Pending to Completed or from Completed to Pending,
    its id and text kept, and leaves the other records as they are; a
    second toggle of the same id gives the sequence back, so the record has
    its first status again. *)
Theorem toggleTodoStatus_twice env1 p1 env2 p2 st id0 :
  In id0 (map id (todos st)) ->
  exists st1 st2,
    step env1 p1 st (Toggle id0) = Some st1 /\
    step env2 p2 st1 (Toggle id0) = Some st2 /\
    todos st2 = todos st /\
    forall n todo, nth_error (todos st) n = Some todo ->
      if (id todo =? id0)%Z then
        exists todo1,
          nth_error (todos st1) n = Some todo1 /\
          id todo1 = id todo /\ text todo1 = text todo /\
          status todo1 = match status todo with
                         | Pending => Completed
                         | Completed => Pending
                         end /\
          status todo1 <> status todo
      else nth_error (todos st1) n = Some todo.
Proof.
  intros _.
  exists {| todos := toggled_all st id0; newTodo := newTodo st; filter := filter st |}.
  exists {| todos := todos st; newTodo := newTodo st; filter := filter st |}.
  split; [apply step_Toggle|].
  split; [rewrite step_Toggle; cbn [newTodo filter]; rewrite toggled_all_twice; reflexivity|].
  split; [reflexivity|].
  intros n todo Hn. cbn [todos]. unfold toggled_all.
  rewrite nth_error_map, Hn. cbn [option_map].
  destruct (id todo =? id0)%Z; [|reflexivity].
  exists (toggled todo). repeat split.
  destruct todo as [i x []]; cbn; discriminate.
Qed.

(** C9.  Toggling an id that no record of the sequence has leaves the
    sequence as it is: the same records, with the same ids, texts and
    statuses, in the same order. *)
Theorem toggleTodoStatus_unknown env p st id0 :
  ~ In id0 (map id (todos st)) ->
  exists st',
    step env p st (Toggle id0) = Some st' /\
    todos st' = todos st /\
    List.length (todos st') = List.length (todos st) /\
    forall n, nth_error (todos st') n = nth_error (todos st) n.
Proof.
  intros Hn.
  exists {| todos := todos st; newTodo := newTodo st; filter := filter st |}.
  split; [|repeat split].
  rewrite step_Toggle, toggled_all_absent by assumption. reflexivity.
Qed.

Lemma find_absent (l : list Todo) id0 :
  ~ In id0 (map id l) -> find (fun todo => (id todo =? id0)%Z) l = None.
Proof.
  induction l as [|t l IH]; cbn; [reflexivity|].
  intros Hn. destruct (id t =? id0)%Z eqn:E.
  - exfalso. apply Hn. left. apply Z.eqb_eq. exact E.
  - apply IH. intros H. apply Hn. right. exact H.
Qed.

(** C10.  Toggling an id that no record has is not free of effects.  The
    sequence is set again to itself, the backend save is called with the
    whole unchanged sequence, and the notification is sent with a body that
    names the status of the record that was not found: the text
    [undefined]. *)
Theorem toggleTodoStatus_unknown_effects env p st id0 :
  ~ In id0 (map id (todos st)) ->
  let title := lit "Todo Status Updated" in
  let body := lit "A todo has been marked as undefined." in
  now (toggleTodoStatus env st id0 (start p)) =
    SetTodos (todos st)
      :: save_call env (todos st)
      :: now (showNotification env title body (start p)) /\
  later (toggleTodoStatus env st id0 (start p)) =
    report (save_result env (todos st))
      ++ later (showNotification env title body (start p)) /\
  In (match electronAPI env with
      | Some _ => SaveOfflineData (JObj [(lit "todos", Todos_to_js (todos st))])
      | None => SetItem (lit "todos") (JSON.stringify (Todos_to_js (todos st)))
      end)
     (now (toggleTodoStatus env st id0 (start p))) /\
  In (match electronAPI env with
      | Some _ => ElectronNotification title body
      | None =>
          match p with
          | granted => NewNotification title body
          | _ => RequestPermission
          end
      end)
     (now (toggleTodoStatus env st id0 (start p))).
Proof.
  intros Hn title body.
  assert (Eb : toggle_body st id0 = body).
  { unfold toggle_body. rewrite toggled_all_absent, find_absent by assumption.
    reflexivity. }
  rewrite toggleTodoStatus_now, toggleTodoStatus_later, Eb.
  rewrite toggled_all_absent by assumption.
  split; [reflexivity|]. split; [reflexivity|]. split.
  - right. left. reflexivity.
  - right. right. rewrite showNotification_now.
    destruct (electronAPI env); [left; reflexivity|].
    destruct p; left; reflexivity.
Qed.

(** ** Deleting *)

(** [erased id0 l l']: [l'] is [l] without its records of id [id0], the
    other records kept as they are and in their order. *)
Inductive erased (id0 : Z) : list Todo -> list Todo -> Prop :=
| erased_nil : erased id0 [] []
| erased_drop todo l l' :
    id todo = id0 -> erased id0 l l' -> erased id0 (todo :: l) l'
| erased_keep todo l l' :
    id todo <> id0 -> erased id0 l l' -> erased id0 (todo :: l) (todo :: l').

Lemma deleted_erased st id0 : erased id0 (todos st) (deleted st id0).
Proof.
  unfold deleted. induction (todos st) as [|t l IH]; cbn; [constructor|].
  destruct (id t =? id0)%Z eqn:E; cbn.
  - apply erased_drop; [apply Z.eqb_eq; exact E|exact IH].
  - apply erased_keep; [apply Z.eqb_neq; exact E|exact IH].
Qed.

Lemma deleted_absent st id0 : ~ In id0 (map id (deleted st id0)).
Proof.
  unfold deleted. rewrite in_map_iff. intros [t [Hid Hin]].
  apply filter_In in Hin. destruct Hin as [_ Hne].
  apply negb_true_iff, Z.eqb_neq in Hne. contradiction.
Qed.

Lemma deleted_unknown st id0 :
  ~ In id0 (map id (todos st)) -> deleted st id0 = todos st.
Proof.
  intros Hn. unfold deleted. apply forallb_filter_id, forallb_forall.
  intros t Ht. apply negb_true_iff, Z.eqb_neq. intros E.
  apply Hn. rewrite <- E. apply in_map. exact Ht.
Qed.

(** C8.  Deleting an id takes the records with that id out of the sequence
    and keeps every other record, unchanged and in the same relative order;
    when no record has the id the sequence stays as it is.  Deleting the
    same id once more leaves the sequence it finds unchanged. *)
Theorem deleteTodo_removes env1 p1 env2 p2 st id0 :
  exists st1 st2,
    step env1 p1 st (Delete id0) = Some st1 /\
    erased id0 (todos st) (todos st1) /\
    ~ In id0 (map id (todos st1)) /\
    (forall todo, id todo <> id0 ->
       (In todo (todos st1) <-> In todo (todos st))) /\
    (~ In id0 (map id (todos st)) -> todos st1 = todos st) /\
    step env2 p2 st1 (Delete id0) = Some st2 /\
    todos st2 = todos st1.
Proof.
  exists {| todos := deleted st id0; newTodo := newTodo st; filter := filter st |}.
  exists {| todos := deleted st id0; newTodo := newTodo st; filter := filter st |}.
  cbn [todos].
  split; [apply step_Delete|].
  split; [apply deleted_erased|].
  split; [apply deleted_absent|].
  split.
  { intros t Hne. unfold deleted. rewrite filter_In.
    apply Z.eqb_neq in Hne. rewrite Hne. cbn. tauto. }
  split; [apply deleted_unknown|].
  split; [|reflexivity].
  rewrite step_Delete. cbn [newTodo filter].
  rewrite (deleted_unknown {| todos := deleted st id0; newTodo := newTodo st;
                              filter := filter st |} id0); [reflexivity|].
  apply deleted_absent.
Qed.

(** ** Identifiers *)

(** At two different positions of the sequence the ids differ. *)
Definition unique_ids (l : list Todo) : Prop :=
  forall i j ti tj,
    nth_error l i = Some ti -> nth_error l j = Some tj ->
    i <> j -> id ti <> id tj.

Lemma unique_ids_NoDup l : unique_ids l <-> NoDup (map id l).
Proof.
  rewrite NoDup_nth_error. unfold unique_ids. split.
  - intros H i j Hi E. rewrite length_map in Hi.
    rewrite !nth_error_map in E.
    destruct (nth_error l i) as [ti|] eqn:Ei;
      [|apply nth_error_None in Ei; lia].
    destruct (nth_error l j) as [tj|] eqn:Ej; [|discriminate].
    cbn in E. injection E as E.
    destruct (Nat.eq_dec i j) as [|Hne]; [assumption|].
    exfalso. exact (H i j ti tj Ei Ej Hne E).
  - intros H i j ti tj Ei Ej Hne E. apply Hne, H.
    + rewrite length_map. apply nth_error_Some. congruence.
    + rewrite !nth_error_map, Ei, Ej. cbn. congruence.
Qed.

Section Reachable.

(** Which steps are taken into account. *)
Variable allowed : Env -> State -> Event -> Prop.

(** The states the component gets into from [s0], one event after the
    other. *)
Inductive reachable (s0 : State) : State -> Prop :=
| reachable_start : reachable s0 s0
| reachable_step st env p ev st' :
    reachable s0 st ->
    allowed env st ev ->
    step env p st ev = Some st' ->
    reachable s0 st'.

End Reachable.

Definition any_step (env : Env) (st : State) (ev : Event) : Prop := True.

(** An add finds the clock at a reading that is not the id of a record. *)
Definition fresh_clock (env : Env) (st : State) (ev : Event) : Prop :=
  ev = Add -> ~ In (Date_now env) (map id (todos st)).

Lemma map_id_toggled_all st id0 : map id (toggled_all st id0) = map id (todos st).
Proof.
  unfold toggled_all. rewrite map_map. apply map_ext.
  intros t. destruct (id t =? id0)%Z; reflexivity.
Qed.

Lemma NoDup_map_filter (A B : Type) (f : A -> B) (g : A -> bool) (l : list A) :
  NoDup (map f l) -> NoDup (map f (List.filter g l)).
Proof.
  induction l as [|a l IH]; cbn; [auto|].
  intros H. inversion H as [|? ? Hn Hl]; subst.
  destruct (g a); cbn; [|auto].
  constructor; [|auto].
  rewrite in_map_iff in *. intros [x [E Hx]]. apply Hn.
  exists x. split; [assumption|]. apply filter_In in Hx. tauto.
Qed.

Lemma step_keeps_unique_ids env p st ev st' :
  fresh_clock env st ev ->
  step env p st ev = Some st' ->
  NoDup (map id (todos st)) -> NoDup (map id (todos st')).
Proof.
  intros Hf Hs Hu. destruct ev.
  - cbv in Hs. injection Hs as <-. exact Hu.
  - destruct (trim (newTodo st)) as [|c r] eqn:Et.
    + rewrite step_Add_blank in Hs by assumption. injection Hs as <-. exact Hu.
    + rewrite step_Add in Hs by congruence. injection Hs as <-.
      cbn [todos]. unfold added. rewrite map_app. cbn [map id].
      apply NoDup_rev in Hu. rewrite <- (rev_involutive (map id (todos st) ++ _)).
      apply NoDup_rev. rewrite rev_app_distr. cbn.
      constructor; [|assumption].
      rewrite <- in_rev. apply Hf. reflexivity.
  - rewrite step_Delete in Hs. injection Hs as <-. cbn [todos].
    apply NoDup_map_filter. exact Hu.
  - rewrite step_Toggle in Hs. injection Hs as <-. cbn [todos].
    rewrite map_id_toggled_all. exact Hu.
  - cbv in Hs. injection Hs as <-. exact Hu.
Qed.

Definition two_adds_at_one_reading : State :=
  {| todos := [ {| id := 1700000000000; text := lit "a"; status := Pending |};
                {| id := 1700000000000; text := lit "b"; status := Pending |} ];
     newTodo := [];
     filter := All |}.

Definition web (now : Z) : Env :=
  {| electronAPI := None;
     getItem := fun _ => None;
     setItem := fun _ _ => None;
     Date_now := now;
     answer := denied |}.

Lemma two_adds_at_one_reading_reachable :
  reachable any_step initial two_adds_at_one_reading.
Proof.
  pose (env := web 1700000000000).
  apply (@reachable_step any_step initial
           {| todos := [ {| id := 1700000000000; text := lit "a"; status := Pending |} ];
              newTodo := lit "b"; filter := All |} env default Add);
    [|exact I|vm_compute; reflexivity].
  apply (@reachable_step any_step initial
           {| todos := [ {| id := 1700000000000; text := lit "a"; status := Pending |} ];
              newTodo := []; filter := All |} env default (Change (lit "b")));
    [|exact I|vm_compute; reflexivity].
  apply (@reachable_step any_step initial
           {| todos := []; newTodo := lit "a"; filter := All |} env default Add);
    [|exact I|vm_compute; reflexivity].
  apply (@reachable_step any_step initial initial env default (Change (lit "a")));
    [|exact I|vm_compute; reflexivity].
  apply reachable_start.
Qed.

(** C3, as the specification has it, fails.  From the empty sequence, type
    [a], add, type [b], add, both adds with [Date.now()] at
    [1700000000000]: the two records of the sequence reached have the same
    id. *)
Lemma unique_ids_not_invariant :
  ~ (forall st, reachable any_step initial st -> unique_ids (todos st)).
Proof.
  intros H. specialize (H _ two_adds_at_one_reading_reachable).
  apply (H 0%nat 1%nat _ _ eq_refl eq_refl); [discriminate|reflexivity].
Qed.

(** C3, amended.  From a sequence with pairwise different ids, the empty
    one for instance, every sequence reached through typing, adds, deletes,
    toggles and filter changes has pairwise different ids, as long as each
    add finds the clock at a reading that is not already the id of a
    record. *)
Theorem unique_ids_invariant s0 st :
  unique_ids (todos s0) ->
  reachable fresh_clock s0 st ->
  unique_ids (todos st).
Proof.
  intros H0 Hr. induction Hr as [|st env p ev st' Hr IH Hf Hs]; [exact H0|].
  apply unique_ids_NoDup. apply unique_ids_NoDup in IH.
  eapply step_keeps_unique_ids; eassumption.
Qed.

(** ** A save that fails *)

(** Effects that are neither an update of [todos], nor an entry in the
    console, nor the report of a rejection. *)
Definition quiet (ev : Effect) : bool :=
  match ev with
  | SetNewTodo _ | SetFilter _ | ElectronNotification _ _
  | RequestPermission | NewNotification _ _ => true
  | _ => false
  end.

Lemma notification_quiet evs :
  forallb is_notification evs = true -> forallb quiet evs = true.
Proof.
  induction evs as [|ev evs IH]; cbn; [reflexivity|].
  intros H. apply andb_prop in H. destruct H as [Hev Hevs].
  rewrite IH by assumption. destruct ev; cbn in Hev; try discriminate; reflexivity.
Qed.

Lemma quiet_In ev evs :
  forallb quiet evs = true -> In ev evs -> quiet ev = true.
Proof. intros H Hin. rewrite forallb_forall in H. auto. Qed.

(** Every event either leaves [todos] alone or is a mutation: one update
    of [todos], the save of the same sequence and, after quiet effects, the
    report of its rejection if it is rejected. *)
Lemma handle_shape env st ev p :
  forallb quiet (effects (handle env st ev (start p))) = true \/
  exists u before after,
    effects (handle env st ev (start p)) =
      SetTodos u :: save_call env u
        :: before ++ report (save_result env u) ++ after /\
    forallb quiet before = true /\
    forallb quiet after = true.
Proof.
  destruct ev; cbn [handle].
  - left. reflexivity.
  - destruct (trim (newTodo st)) as [|c r] eqn:Et.
    + left. rewrite addTodo_blank by assumption. reflexivity.
    + right. unfold effects. rewrite addTodo_now, addTodo_later by congruence.
      destruct (showNotification_effects env (lit "Todo Added")
                  (lit "A new todo has been added.") p) as [Hn Hl].
      eexists. exists (SetNewTodo [] :: now (showNotification env (lit "Todo Added")
                (lit "A new todo has been added.") (start p))). eexists.
      split; [reflexivity|].
      split; [cbn [forallb quiet andb]|]; apply notification_quiet; assumption.
  - right. unfold effects. rewrite deleteTodo_now, deleteTodo_later.
    destruct (showNotification_effects env (lit "Todo Deleted")
                (lit "A todo has been deleted.") p) as [Hn Hl].
    eexists. eexists. eexists. split; [reflexivity|].
    split; apply notification_quiet; assumption.
  - right. unfold effects. rewrite toggleTodoStatus_now, toggleTodoStatus_later.
    destruct (showNotification_effects env (lit "Todo Status Updated")
                (toggle_body st id0) p) as [Hn Hl].
    eexists. eexists. eexists. split; [reflexivity|].
    split; apply notification_quiet; assumption.
  - left. reflexivity.
Qed.

(** Quiet effects and reports leave [todos] as it is. *)
Lemma next_state_keeps_todos evs :
  forallb (fun ev => quiet ev || match ev with UnhandledRejection _ => true | _ => false end)
    evs = true ->
  forall s, exists st', next_state s evs = Some st' /\ todos st' = todos s.
Proof.
  induction evs as [|x evs IH]; intros Hq s; [exists s; split; reflexivity|].
  cbn in Hq. apply andb_prop in Hq. destruct Hq as [Hx Hq].
  destruct x; cbn in Hx; try discriminate; cbn [next_state update];
    try (apply IH; assumption).
  - destruct (IH Hq {| todos := todos s; newTodo := value; filter := filter s |})
      as (st' & Hs & Ht). exists st'. split; assumption.
  - destruct (IH Hq {| todos := todos s; newTodo := newTodo s; filter := value |})
      as (st' & Hs & Ht). exists st'. split; assumption.
Qed.

Lemma save_call_not_update env u l : save_call env u <> SetTodos l.
Proof. unfold save_call. destruct (electronAPI env); discriminate. Qed.

Lemma save_call_not_logged env u msg e : save_call env u <> ConsoleError msg e.
Proof. unfold save_call. destruct (electronAPI env); discriminate. Qed.

(** What the specification says of a failing save: the mutation returns,
    the failure is caught and logged, the new sequence stays. *)
Definition save_failure_caught_and_logged : Prop :=
  forall env p st ev l e,
    In (SetTodos l) (effects (handle env st ev (start p))) ->
    save_result env l = Rejected e ->
    completion (handle env st ev (start p)) = Return tt /\
    (exists message, In (ConsoleError message e) (effects (handle env st ev (start p)))) /\
    ~ In (UnhandledRejection e) (effects (handle env st ev (start p))) /\
    exists st', step env p st ev = Some st' /\ todos st' = l.

Definition disk_full : Exn := HostError (lit "disk full").

(** A host whose offline store rejects every save. *)
Definition failing_host : Env :=
  {| electronAPI := Some {| getOfflineData := Fulfilled JUndefined;
                            saveOfflineData := fun _ => Rejected disk_full |};
     getItem := fun _ => None;
     setItem := fun _ _ => None;
     Date_now := 1700000000000;
     answer := denied |}.

Definition typed (s : string) : State :=
  {| todos := []; newTodo := lit s; filter := All |}.

(** C2, as the specification has it, fails.  Add [buy milk] to the empty
    sequence on a host whose save is rejected: the handler updates the
    state, calls the host's save, resets the text field and notifies; the
    rejection of the save comes later and is caught by nobody, and nothing
    is written to the console. *)
Lemma save_failure_not_caught : ~ save_failure_caught_and_logged.
Proof.
  intros H.
  destruct (H failing_host default (typed "buy milk") Add
              [ {| id := 1700000000000; text := lit "buy milk"; status := Pending |} ]
              disk_full) as (_ & _ & Hcaught & _).
  - vm_compute. left. reflexivity.
  - reflexivity.
  - apply Hcaught. vm_compute. do 4 right. left. reflexivity.
Qed.

(** C2, amended.  When the backend save of the sequence a mutation has
    just set fails, the save having been called with that sequence, the
    mutation still returns to its caller without throwing and the new
    sequence stays the state (nothing is rolled back);
    the failure is neither caught nor logged: the rejected promise of
    [saveTodos] is dropped, the runtime reports it as an unhandled
    rejection and nothing is written to the console. *)
Theorem save_failure_dropped env p st ev l e :
  In (SetTodos l) (effects (handle env st ev (start p))) ->
  save_result env l = Rejected e ->
  In (save_call env l) (effects (handle env st ev (start p))) /\
  completion (handle env st ev (start p)) = Return tt /\
  In (UnhandledRejection e) (effects (handle env st ev (start p))) /\
  (forall message error,
     ~ In (ConsoleError message error) (effects (handle env st ev (start p)))) /\
  exists st', step env p st ev = Some st' /\ todos st' = l.
Proof.
  intros Hin Hrej.
  rewrite handle_returns. unfold step.
  destruct (handle_shape env st ev p) as [Hq|(u & before & after & E & Hb & Ha)].
  - apply (@quiet_In _ _ Hq) in Hin. discriminate.
  - rewrite E in *.
    assert (l = u) as ->.
    { destruct Hin as [Hin|[Hin|Hin]].
      - congruence.
      - exfalso. exact (@save_call_not_update _ _ _ Hin).
      - apply in_app_or in Hin. destruct Hin as [Hin|Hin].
        + apply (@quiet_In _ _ Hb) in Hin. discriminate.
        + apply in_app_or in Hin. destruct Hin as [Hin|Hin].
          * destruct (save_result env u); cbn in Hin; [tauto|].
            destruct Hin as [Hin|[]]; discriminate.
          * apply (@quiet_In _ _ Ha) in Hin. discriminate. }
    rewrite Hrej. cbn [report].
    split; [right; left; reflexivity|].
    split; [reflexivity|].
    split.
    { right. right. apply in_or_app. right. left. reflexivity. }
    split.
    + intros message error [Hin'|[Hin'|Hin']]; try discriminate.
      * exact (@save_call_not_logged _ _ _ _ Hin').
      * apply in_app_or in Hin'. destruct Hin' as [Hin'|[Hin'|Hin']];
          try discriminate.
        -- apply (@quiet_In _ _ Hb) in Hin'. discriminate.
        -- apply (@quiet_In _ _ Ha) in Hin'. discriminate.
    + rewrite next_state_SetTodos.
      rewrite next_state_cons_other by apply save_call_other.
      apply (next_state_keeps_todos (before ++ UnhandledRejection e :: after)).
      rewrite forallb_app. cbn [forallb quiet orb].
      rewrite forallb_forall in Hb, Ha.
      apply andb_true_intro. split; [|apply andb_true_intro; split; [reflexivity|]];
        apply forallb_forall; intros x Hx; rewrite ?Hb, ?Ha by assumption; reflexivity.
Qed.

(** ** Loading *)

(** A JSON text written with ['] in the place of the double quote. *)
Definition quoted (s : string) : JSString :=
  map (fun c => if (c =? 39)%N then 34%N else c) (lit s).

(** A browser whose [localStorage] holds [stored] under [todos]. *)
Definition browser (stored : JSString) : Env :=
  {| electronAPI := None;
     getItem := fun key => if string_eqb key (lit "todos") then Some stored else None;
     setItem := fun _ _ => None;
     Date_now := 1700000000000;
     answer := denied |}.

(** A host that answers [getOfflineData()] as [answered]. *)
Definition host (answered : Promise JSValue) : Env :=
  {| electronAPI := Some {| getOfflineData := answered;
                            saveOfflineData := fun _ => Fulfilled tt |};
     getItem := fun _ => None;
     setItem := fun _ _ => None;
     Date_now := 1700000000000;
     answer := denied |}.

(** A stored text that is no serialization of a [Todo[]]: it does not
    parse, or it parses to a value of another shape.  Likewise what a host
    hands over. *)
Definition malformed_text (s : JSString) : Prop :=
  forall v, JSON.parse s = Return v -> is_Todos v = false.

Definition malformed_data (data : JSValue) : Prop :=
  is_Todos (get data (lit "todos")) = false.

(** The load does not fail and [todos], empty when the component is
    mounted, is empty after it. *)
Definition loads_empty (env : Env) (p : Permission) : Prop :=
  completion (loadTodos env (start p)) = Return (Fulfilled tt) /\
  todos_value (JArr []) (effects (loadTodos env (start p))) = JArr [].

(** What the specification says of a malformed payload. *)
Definition malformed_loads_empty : Prop :=
  (forall env p s,
     electronAPI env = None ->
     getItem env (lit "todos") = Some s ->
     malformed_text s ->
     loads_empty env p) /\
  (forall env p api data,
     electronAPI env = Some api ->
     getOfflineData api = Fulfilled data ->
     malformed_data data ->
     loads_empty env p).

Definition record_without_status : JSString := quoted "[{'id':1,'text':'a'}]".

Example record_without_status_parsed :
  JSON.parse record_without_status =
    Return (JArr [JObj [(lit "id", JNum (Dec 1 0)); (lit "text", JStr (lit "a"))]]).
Proof. vm_compute. reflexivity. Qed.

(** C1, as the specification has it, fails.  With
    [record_without_status] in [localStorage], a record that lacks its
    status, the load parses the text and makes the parsed array the
    sequence: [todos] is not empty after it. *)
Lemma malformed_payload_installed : ~ malformed_loads_empty.
Proof.
  intros [H _].
  destruct (H (browser record_without_status) default record_without_status)
    as [_ Hv].
  - reflexivity.
  - reflexivity.
  - intros v Hp. rewrite record_without_status_parsed in Hp.
    injection Hp as <-. reflexivity.
  - vm_compute in Hv. discriminate.
Qed.

(** The other way a malformed payload goes wrong: a text that does not
    parse, here a truncated one, rejects the promise of [loadTodos] with
    the [SyntaxError] of [JSON.parse]; nothing catches it, while a
    rejection on the host path is caught and logged. *)
Example truncated_payload_rejects :
  completion (loadTodos (browser (lit "[{")) (start default)) = Return (Rejected SyntaxError) /\
  effects (mount (browser (lit "[{")) (start default)) =
    [GetItem (lit "todos"); UnhandledRejection SyntaxError] /\
  effects (mount (host (Rejected SyntaxError)) (start default)) =
    [GetOfflineData; ConsoleError (lit "Failed to load todos:") SyntaxError].
Proof. vm_compute. repeat split. Qed.

Ltac run_load :=
  unfold effects, loadTodos, async, try_catch, bind, when, await, emit,
    electron_getOfflineData, localStorage_getItem, JSON_parse; cbn.

(** C1, amended.  On the host path the load never fails: a rejection of
    the host's promise is caught and logged and leaves the sequence empty,
    a falsy answer or an answer without a truthy [todos] property leaves
    it empty, and any other answer makes its [todos] property the sequence
    as it is.  On the [localStorage] path a missing or empty text leaves
    the sequence empty, and a text that [JSON.parse] accepts makes the
    parsed value the sequence as it is, whatever its shape. *)
Theorem loadTodos_fallback env p :
  (forall api e,
     electronAPI env = Some api ->
     getOfflineData api = Rejected e ->
     completion (loadTodos env (start p)) = Return (Fulfilled tt) /\
     effects (loadTodos env (start p)) =
       [GetOfflineData; ConsoleError (lit "Failed to load todos:") e] /\
     todos_value (JArr []) (effects (loadTodos env (start p))) = JArr []) /\
  (forall api data,
     electronAPI env = Some api ->
     getOfflineData api = Fulfilled data ->
     completion (loadTodos env (start p)) = Return (Fulfilled tt) /\
     todos_value (JArr []) (effects (loadTodos env (start p))) =
       if truthy data && truthy (get data (lit "todos"))
       then get data (lit "todos")
       else JArr []) /\
  (electronAPI env = None ->
   getItem env (lit "todos") = None \/ getItem env (lit "todos") = Some [] ->
   completion (loadTodos env (start p)) = Return (Fulfilled tt) /\
   todos_value (JArr []) (effects (loadTodos env (start p))) = JArr []) /\
  (forall s v,
     electronAPI env = None ->
     getItem env (lit "todos") = Some s ->
     s <> [] ->
     JSON.parse s = Return v ->
     completion (loadTodos env (start p)) = Return (Fulfilled tt) /\
     todos_value (JArr []) (effects (loadTodos env (start p))) = v).
Proof.
  split; [|split; [|split]].
  - intros api e Ha Hg. run_load. rewrite Ha. cbn. rewrite Hg. cbn.
    repeat split.
  - intros api data Ha Hg. run_load. rewrite Ha. cbn. rewrite Hg. cbn.
    destruct (truthy data && truthy (get data (lit "todos"))); cbn; split; reflexivity.
  - intros Ha Hg. run_load. rewrite Ha. cbn.
    destruct Hg as [Hg|Hg]; rewrite Hg; cbn; split; reflexivity.
  - intros s v Ha Hg Hs Hp. run_load. rewrite Ha. cbn. rewrite Hg.
    destruct s as [|c s]; [congruence|]. cbn. rewrite Hp. cbn.
    split; reflexivity.
Qed.

(** ** Runs *)

Definition milk : Todo :=
  {| id := 1700000000000; text := lit "buy milk"; status := Pending |}.

Definition bread : Todo :=
  {| id := 1700000000123; text := lit "bread"; status := Completed |}.

Definition shopping : State :=
  {| todos := [milk; bread]; newTodo := []; filter := All |}.

(** The scenario of the specification: add, toggle, filter, remove. *)
Example scenario :
  let env := web 1700000000000 in
  let s1 := {| todos := [milk]; newTodo := []; filter := All |} in
  let s2 := {| todos := [toggled milk]; newTodo := []; filter := All |} in
  step env default (typed "buy milk") Add = Some s1 /\
  step env default s1 (Toggle 1700000000000) = Some s2 /\
  filteredTodos (with_filter s2 OnlyCompleted) = [toggled milk] /\
  step env default s2 (Delete 1700000000000) = Some initial.
Proof. vm_compute. repeat split. Qed.

(** What is saved is read back as it was. *)
Example saved_then_loaded :
  JSON.parse (JSON.stringify (Todos_to_js [milk; bread])) = Return (Todos_to_js [milk; bread]) /\
  Todos_of_js (Todos_to_js [milk; bread]) = Some [milk; bread] /\
  next_state initial
    (effects (mount (browser (JSON.stringify (Todos_to_js [milk; bread]))) (start default)))
    = Some shopping.
Proof. vm_compute. repeat split. Qed.

(** The same in a browser whose storage is full: [setItem] throws inside
    [saveTodos], the add goes through all the same. *)
Definition full_storage : Env :=
  {| electronAPI := None;
     getItem := fun _ => None;
     setItem := fun _ _ => Some QuotaExceededError;
     Date_now := 1700000000000;
     answer := denied |}.

Example quota_exceeded :
  completion (handle full_storage (typed "buy milk") Add (start granted)) = Return tt /\
  later (handle full_storage (typed "buy milk") Add (start granted)) =
    [UnhandledRejection QuotaExceededError] /\
  step full_storage granted (typed "buy milk") Add =
    Some {| todos := [milk]; newTodo := []; filter := All |}.
Proof. vm_compute. repeat split. Qed.

(** C4, as the specification has it, fails.  Add [buy milk] to the empty
    sequence: the sequence becomes the one record, but the call of
    [addTodo] evaluates to [undefined], not to that sequence. *)
Lemma addTodo_returns_nothing : ~ addTodo_returns_updated_sequence.
Proof.
  intros H.
  destruct (H (web 1700000000000) default (typed "buy milk"))
    as (st' & new & _ & _ & _ & _ & _ & Hv).
  - vm_compute. discriminate.
  - assert (E : call_value (addTodo (web 1700000000000) (typed "buy milk")
                              (start default)) = Some JUndefined)
      by (vm_compute; reflexivity).
    rewrite E in Hv. discriminate.
Qed.

Lemma addTodo_appends_witness :
  trim (newTodo (typed "  buy milk ")) <> [] /\
  exists st' new,
    step (web 1700000000000) default (typed "  buy milk ") Add = Some st' /\
    In (SetTodos (todos st'))
       (effects (addTodo (web 1700000000000) (typed "  buy milk ") (start default))) /\
    todos st' = todos (typed "  buy milk ") ++ [new] /\
    List.length (todos st') = S (List.length (todos (typed "  buy milk "))) /\
    last (todos st') new = new /\
    id new = Date_now (web 1700000000000) /\
    status new = Pending /\
    text new = trim (newTodo (typed "  buy milk ")) /\
    completion (addTodo (web 1700000000000) (typed "  buy milk ") (start default)) =
      Return tt /\
    call_value (addTodo (web 1700000000000) (typed "  buy milk ") (start default)) =
      Some JUndefined.
Proof.
  split; [vm_compute; discriminate|].
  apply addTodo_appends. vm_compute. discriminate.
Defined.

Lemma addTodo_blank_noop_witness :
  trim (newTodo (typed "   ")) = [] /\
  effects (addTodo (web 1700000000000) (typed "   ") (start default)) = [] /\
  completion (addTodo (web 1700000000000) (typed "   ") (start default)) = Return tt /\
  step (web 1700000000000) default (typed "   ") Add = Some (typed "   ").
Proof.
  split; [reflexivity|].
  apply addTodo_blank_noop. reflexivity.
Defined.

Lemma toggleTodoStatus_twice_witness :
  In 1700000000123%Z (map id (todos shopping)) /\
  exists st1 st2,
    step (web 1700000000200) default shopping (Toggle 1700000000123) = Some st1 /\
    step (web 1700000000300) default st1 (Toggle 1700000000123) = Some st2 /\
    todos st2 = todos shopping.
Proof.
  split; [right; left; reflexivity|].
  destruct (toggleTodoStatus_twice (web 1700000000200) default
              (web 1700000000300) default shopping 1700000000123)
    as (st1 & st2 & H1 & H2 & H3 & _).
  - right. left. reflexivity.
  - exists st1, st2. repeat split; assumption.
Defined.

Lemma toggleTodoStatus_unknown_witness :
  ~ In 42%Z (map id (todos shopping)) /\
  exists st',
    step (web 1700000000200) default shopping (Toggle 42) = Some st' /\
    todos st' = todos shopping /\
    List.length (todos st') = List.length (todos shopping) /\
    forall n, nth_error (todos st') n = nth_error (todos shopping) n.
Proof.
  assert (H : ~ In 42%Z (map id (todos shopping))).
  { intros [H|[H|[]]]; discriminate. }
  split; [exact H|].
  apply toggleTodoStatus_unknown. exact H.
Defined.

Lemma toggleTodoStatus_unknown_effects_witness :
  ~ In 42%Z (map id (todos shopping)) /\
  effects (toggleTodoStatus (web 1700000000200) shopping 42 (start granted)) =
    [ SetTodos [milk; bread];
      SetItem (lit "todos") (JSON.stringify (Todos_to_js [milk; bread]));
      NewNotification (lit "Todo Status Updated")
        (lit "A todo has been marked as undefined.") ].
Proof.
  assert (H : ~ In 42%Z (map id (todos shopping))).
  { intros [H|[H|[]]]; discriminate. }
  split; [exact H|].
  destruct (@toggleTodoStatus_unknown_effects (web 1700000000200) granted shopping 42 H)
    as (En & El & _ & _).
  unfold effects. rewrite En, El. reflexivity.
Defined.

Lemma unique_ids_invariant_witness :
  unique_ids (todos initial) /\
  reachable fresh_clock initial
    {| todos := [ {| id := 1700000000000; text := lit "a"; status := Pending |};
                  {| id := 1700000000001; text := lit "b"; status := Pending |} ];
       newTodo := []; filter := All |} /\
  unique_ids
    [ {| id := 1700000000000; text := lit "a"; status := Pending |};
      {| id := 1700000000001; text := lit "b"; status := Pending |} ].
Proof.
  assert (H0 : unique_ids (todos initial)).
  { intros [|i] j ti tj Hi; discriminate. }
  assert (Hr : reachable fresh_clock initial
    {| todos := [ {| id := 1700000000000; text := lit "a"; status := Pending |};
                  {| id := 1700000000001; text := lit "b"; status := Pending |} ];
       newTodo := []; filter := All |}).
  { apply (@reachable_step fresh_clock initial
             {| todos := [ {| id := 1700000000000; text := lit "a"; status := Pending |} ];
                newTodo := lit "b"; filter := All |}
             (web 1700000000001) default Add);
      [|intros _ [H|[]]; discriminate|vm_compute; reflexivity].
    apply (@reachable_step fresh_clock initial
             {| todos := [ {| id := 1700000000000; text := lit "a"; status := Pending |} ];
                newTodo := []; filter := All |}
             (web 1700000000001) default (Change (lit "b")));
      [|intros H; discriminate|vm_compute; reflexivity].
    apply (@reachable_step fresh_clock initial
             {| todos := []; newTodo := lit "a"; filter := All |}
             (web 1700000000000) default Add);
      [|intros _ []|vm_compute; reflexivity].
    apply (@reachable_step fresh_clock initial initial
             (web 1700000000000) default (Change (lit "a")));
      [|intros H; discriminate|vm_compute; reflexivity].
    apply reachable_start. }
  split; [exact H0|]. split; [exact Hr|].
  exact (@unique_ids_invariant initial _ H0 Hr).
Defined.

Lemma save_failure_dropped_witness :
  In (SetTodos [milk]) (effects (handle failing_host (typed "buy milk") Add (start default))) /\
  save_result failing_host [milk] = Rejected disk_full /\
  In (save_call failing_host [milk])
     (effects (handle failing_host (typed "buy milk") Add (start default))) /\
  completion (handle failing_host (typed "buy milk") Add (start default)) = Return tt /\
  In (UnhandledRejection disk_full)
     (effects (handle failing_host (typed "buy milk") Add (start default))) /\
  (forall message error,
     ~ In (ConsoleError message error)
          (effects (handle failing_host (typed "buy milk") Add (start default)))) /\
  exists st', step failing_host default (typed "buy milk") Add = Some st' /\
              todos st' = [milk].
Proof.
  assert (H : In (SetTodos [milk])
                 (effects (handle failing_host (typed "buy milk") Add (start default)))).
  { left. reflexivity. }
  split; [exact H|]. split; [reflexivity|].
  exact (@save_failure_dropped failing_host default (typed "buy milk") Add
           [milk] disk_full H eq_refl).
Defined.

Lemma loadTodos_fallback_witness :
  (completion (loadTodos (host (Rejected disk_full)) (start default)) = Return (Fulfilled tt) /\
   effects (loadTodos (host (Rejected disk_full)) (start default)) =
     [GetOfflineData; ConsoleError (lit "Failed to load todos:") disk_full] /\
   todos_value (JArr []) (effects (loadTodos (host (Rejected disk_full)) (start default))) = JArr []) /\
  (completion (loadTodos (host (Fulfilled JNull)) (start default)) = Return (Fulfilled tt) /\
   todos_value (JArr []) (effects (loadTodos (host (Fulfilled JNull)) (start default))) = JArr []) /\
  (completion (loadTodos (browser []) (start default)) = Return (Fulfilled tt) /\
   todos_value (JArr []) (effects (loadTodos (browser []) (start default))) = JArr []) /\
  (completion (loadTodos (browser record_without_status) (start default)) = Return (Fulfilled tt) /\
   todos_value (JArr []) (effects (loadTodos (browser record_without_status) (start default))) =
     JArr [JObj [(lit "id", JNum (Dec 1 0)); (lit "text", JStr (lit "a"))]]).
Proof.
  split; [|split; [|split]].
  - destruct (loadTodos_fallback (host (Rejected disk_full)) default) as (H & _).
    exact (H _ disk_full eq_refl eq_refl).
  - destruct (loadTodos_fallback (host (Fulfilled JNull)) default) as (_ & H & _).
    exact (H _ JNull eq_refl eq_refl).
  - destruct (loadTodos_fallback (browser []) default) as (_ & _ & H & _).
    apply H; [reflexivity|right; reflexivity].
  - destruct (loadTodos_fallback (browser record_without_status) default)
      as (_ & _ & _ & H).
    apply (H record_without_status); [reflexivity|reflexivity|discriminate|].
    exact record_without_status_parsed.
Defined.

(** * Serialization

    What [JSON.stringify] writes for a sequence of records, [JSON.parse]
    reads back. *)

Module Serialization.

Import JSON.

Lemma lit_nil : lit EmptyString = [].
Proof. reflexivity. Qed.

Lemma lit_cons a s : lit (String a s) = N_of_ascii a :: lit s.
Proof. reflexivity. Qed.

Lemma lit_app s t : lit (s ++ t) = lit s ++ lit t.
Proof. induction s as [|a s IH]; [reflexivity|]. cbn [append]. rewrite !lit_cons, IH. reflexivity. Qed.

(** The code units of a decimal number. *)
Definition codes (d : Decimal.uint) : JSString := lit (NilEmpty.string_of_uint d).

Lemma codes_digits d : Forall (fun c => is_digit c = true) (codes d).
Proof.
  unfold codes. induction d; cbn [NilEmpty.string_of_uint];
    rewrite ?lit_nil, ?lit_cons; constructor; auto.
Qed.

Lemma span_digits_all ds rest :
  Forall (fun c => is_digit c = true) ds ->
  match rest with [] => True | c :: _ => is_digit c = false end ->
  span_digits (ds ++ rest) = (ds, rest).
Proof.
  intros Hd Hr. induction Hd as [|c ds Hc Hds IH]; cbn.
  - destruct rest as [|c r]; [reflexivity|]. cbn. rewrite Hr. reflexivity.
  - rewrite Hc, IH. reflexivity.
Qed.

Lemma digits_value_codes d a :
  fold_left (fun a d => 10 * a + Z.of_N (d - 48))%Z (codes d) a =
    (a * 10 ^ Z.of_N (DecimalPos.Unsigned.usize d) + Z.of_N (DecimalPos.Unsigned.of_lu (Decimal.rev d)))%Z.
Proof.
  revert a. unfold codes.
  induction d; intros a; cbn [NilEmpty.string_of_uint];
    rewrite ?lit_nil, ?lit_cons; cbn [fold_left];
    [cbn; lia| ..];
    match goal with
    | |- context [DecimalPos.Unsigned.of_lu (Decimal.rev (?D d))] =>
        change (Decimal.rev (D d)) with (Decimal.revapp d (D Decimal.Nil));
        rewrite (DecimalPos.Unsigned.of_lu_revapp d (D Decimal.Nil))
    end;
    rewrite IHd; cbn [DecimalPos.Unsigned.of_lu DecimalPos.Unsigned.usize];
    rewrite N2Z.inj_succ, Z.pow_succ_r by lia;
    rewrite N2Z.inj_add, N2Z.inj_mul, N2Z.inj_pow;
    set (n := (10 ^ Z.of_N (DecimalPos.Unsigned.usize d))%Z);
    set (x := Z.of_N (DecimalPos.Unsigned.of_lu (Decimal.rev d)));
    vm_compute (Z.of_N (N_of_ascii _ - 48));
    vm_compute (Z.of_N (_ + 10 * 0));
    vm_compute (Z.of_N (10 * 0)); vm_compute (Z.of_N 10);
    lia.
Qed.

Lemma digits_value_to_uint p : digits_value (codes (Pos.to_uint p)) = Z.pos p.
Proof.
  unfold digits_value. rewrite digits_value_codes.
  rewrite <- DecimalPos.Unsigned.of_uint_alt, DecimalPos.Unsigned.of_to. cbn. reflexivity.
Qed.

(** A positive number is written without a leading zero. *)
Lemma to_uint_head p :
  exists d ds, codes (Pos.to_uint p) = d :: ds /\ (d =? 48)%N = false.
Proof.
  pose proof (DecimalPos.Unsigned.to_uint_nonnil p) as Hnil.
  pose proof (DecimalPos.Unsigned.to_uint_nonzero p) as Hz.
  assert (Hn : Decimal.unorm (Pos.to_uint p) = Pos.to_uint p).
  { rewrite <- (DecimalPos.Unsigned.to_of (Pos.to_uint p)), DecimalPos.Unsigned.of_to. reflexivity. }
  unfold codes.
  destruct (Pos.to_uint p) as [|d|d|d|d|d|d|d|d|d|d] eqn:E;
    try congruence; cbn [NilEmpty.string_of_uint]; rewrite lit_cons;
    try (eexists; eexists; split; [reflexivity|reflexivity]).
  exfalso. rewrite DecimalFacts.unorm_D0 in Hn.
  assert (Hd : d <> Decimal.Nil). { intros ->. apply Hz. reflexivity. }
  pose proof (DecimalFacts.nb_digits_unorm d Hd) as L. rewrite Hn in L. cbn in L. lia.
Qed.

Lemma digits_of_Z_pos p : digits_of_Z (Z.pos p) = codes (Pos.to_uint p).
Proof.
  unfold digits_of_Z, codes. cbn [Z.to_int NilZero.string_of_int].
  unfold NilZero.string_of_uint.
  pose proof (DecimalPos.Unsigned.to_uint_nonnil p).
  destruct (Pos.to_uint p); congruence.
Qed.

Lemma digits_of_Z_neg p : digits_of_Z (Z.neg p) = 45%N :: codes (Pos.to_uint p).
Proof.
  unfold digits_of_Z, codes. cbn [Z.to_int NilZero.string_of_int]. rewrite lit_cons.
  unfold NilZero.string_of_uint.
  pose proof (DecimalPos.Unsigned.to_uint_nonnil p).
  destruct (Pos.to_uint p); [congruence|reflexivity..].
Qed.

(** What ends a number: no digit, no point, no exponent mark. *)
Definition ends_number (rest : JSString) : Prop :=
  match rest with
  | [] => True
  | c :: _ => is_digit c = false /\ (c =? 46)%N = false /\
              (c =? 101)%N = false /\ (c =? 69)%N = false
  end.

Lemma parse_number_digits z rest :
  ends_number rest ->
  parse_number (digits_of_Z z ++ rest) = Some (Dec z 0, rest).
Proof.
  intros He.
  assert (Hs : match rest with [] => True | c :: _ => is_digit c = false end).
  { destruct rest; [exact I|apply He]. }
  destruct z as [|p|p].
  - change (digits_of_Z 0) with [48%N]. unfold parse_number.
    change ([48%N] ++ rest) with (48%N :: rest). cbv iota beta.
    change ((48 =? 45)%N) with false. cbv iota beta.
    change (48%N :: rest) with ([48%N] ++ rest).
    rewrite span_digits_all by (auto; repeat constructor).
    cbv iota beta. change ((48 =? 48)%N) with true. cbn [andb negb].
    destruct rest as [|c r]; [reflexivity|].
    destruct He as (_ & H46 & H101 & H69).
    cbv zeta. rewrite H46. cbv iota beta. rewrite H101, H69. reflexivity.
  - rewrite digits_of_Z_pos. unfold parse_number.
    destruct (to_uint_head p) as (d & ds & E & Hd).
    pose proof (codes_digits (Pos.to_uint p)) as Hall.
    pose proof (digits_value_to_uint p) as Hv.
    assert (H45 : (d =? 45)%N = false).
    { rewrite E in Hall. inversion Hall as [|? ? H1 _]; subst.
      unfold is_digit in H1. apply andb_prop in H1. destruct H1 as [H1 _].
      apply N.leb_le in H1. apply N.eqb_neq. lia. }
    rewrite E in *. change ((d :: ds) ++ rest) with (d :: ds ++ rest).
    cbv iota beta. rewrite H45. cbv iota beta.
    change (d :: ds ++ rest) with ((d :: ds) ++ rest).
    rewrite span_digits_all by assumption.
    cbv iota beta. rewrite Hd. cbn [andb].
    destruct rest as [|c r].
    + cbv zeta iota beta. rewrite List.app_nil_r, Hv. reflexivity.
    + destruct He as (_ & H46 & H101 & H69).
      cbv zeta. rewrite H46. cbv iota beta. rewrite H101, H69. cbn [orb].
      cbv iota beta. rewrite List.app_nil_r, Hv. reflexivity.
  - rewrite digits_of_Z_neg. unfold parse_number.
    change ((45%N :: codes (Pos.to_uint p)) ++ rest)
      with (45%N :: codes (Pos.to_uint p) ++ rest).
    cbv iota beta. change ((45 =? 45)%N) with true. cbv iota beta.
    destruct (to_uint_head p) as (d & ds & E & Hd).
    pose proof (codes_digits (Pos.to_uint p)) as Hall.
    pose proof (digits_value_to_uint p) as Hv.
    rewrite span_digits_all by assumption.
    rewrite E in *. cbv iota beta. rewrite Hd. cbn [andb].
    destruct rest as [|c r].
    + cbv zeta iota beta. rewrite List.app_nil_r, Hv. reflexivity.
    + destruct He as (_ & H46 & H101 & H69).
      cbv zeta. rewrite H46. cbv iota beta. rewrite H101, H69. cbn [orb].
      cbv iota beta. rewrite List.app_nil_r, Hv. reflexivity.
Qed.

(** ** Strings *)

Local Open Scope N_scope.

Lemma hex_value_digit n : n < 16 -> hex_value (hex_digit n) = Some n.
Proof.
  intros H. rewrite <- (N2Nat.id n).
  assert (Hk : (N.to_nat n < 16)%nat) by lia.
  generalize dependent (N.to_nat n). clear. intros k Hk.
  do 16 (destruct k as [|k]; [reflexivity|]). lia.
Qed.

Lemma hex4_escape c :
  c < 65536 ->
  hex4 (hex_digit (c / 4096)) (hex_digit ((c / 256) mod 16))
       (hex_digit ((c / 16) mod 16)) (hex_digit (c mod 16)) = Some c.
Proof.
  intros H. unfold hex4.
  rewrite !hex_value_digit.
  - f_equal.
    replace (c / 256) with (c / 16 / 16) by (rewrite N.Div0.div_div; reflexivity).
    replace (c / 4096) with (c / 16 / 16 / 16)
      by (rewrite !N.Div0.div_div; reflexivity).
    assert (c / 16 / 16 / 16 < 16)
      by (rewrite !N.Div0.div_div; apply N.Div0.div_lt_upper_bound; lia).
    zify. Z.to_euclidean_division_equations. lia.
  - apply N.mod_lt. discriminate.
  - apply N.mod_lt. discriminate.
  - apply N.mod_lt. discriminate.
  - apply N.Div0.div_lt_upper_bound. lia.
Qed.

Lemma parse_unicode_escape c s acc :
  c < 65536 ->
  parse_string_body (unicode_escape c ++ s) acc = parse_string_body s (c :: acc).
Proof.
  intros H. unfold unicode_escape.
  change (parse_string_body
            ([92; 117; hex_digit (c / 4096); hex_digit ((c / 256) mod 16);
              hex_digit ((c / 16) mod 16); hex_digit (c mod 16)] ++ s) acc)
    with (match hex4 (hex_digit (c / 4096)) (hex_digit ((c / 256) mod 16))
                     (hex_digit ((c / 16) mod 16)) (hex_digit (c mod 16)) with
          | Some u => parse_string_body s (u :: acc)
          | None => None
          end).
  rewrite hex4_escape by assumption. reflexivity.
Qed.

Lemma parse_literal c s acc :
  (c =? 34) = false -> (c =? 92) = false -> (c <? 32) = false ->
  parse_string_body (c :: s) acc = parse_string_body s (c :: acc).
Proof. intros H1 H2 H3. cbn [parse_string_body]. rewrite H1, H2, H3. reflexivity. Qed.

Lemma parse_quote_unit c s acc :
  c < 65536 ->
  parse_string_body (quote_unit c ++ s) acc = parse_string_body s (c :: acc).
Proof.
  intros H. unfold quote_unit.
  destruct (c =? 8) eqn:E8; [apply N.eqb_eq in E8; subst; reflexivity|].
  destruct (c =? 9) eqn:E9; [apply N.eqb_eq in E9; subst; reflexivity|].
  destruct (c =? 10) eqn:E10; [apply N.eqb_eq in E10; subst; reflexivity|].
  destruct (c =? 12) eqn:E12; [apply N.eqb_eq in E12; subst; reflexivity|].
  destruct (c =? 13) eqn:E13; [apply N.eqb_eq in E13; subst; reflexivity|].
  destruct (c =? 34) eqn:E34; [apply N.eqb_eq in E34; subst; reflexivity|].
  destruct (c =? 92) eqn:E92; [apply N.eqb_eq in E92; subst; reflexivity|].
  destruct (c <? 32) eqn:E32; [apply parse_unicode_escape; assumption|].
  destruct (is_high_surrogate c || is_low_surrogate c);
    [apply parse_unicode_escape; assumption|].
  apply parse_literal; assumption.
Qed.

Lemma surrogate_literal c :
  is_high_surrogate c = true \/ is_low_surrogate c = true ->
  (c =? 34) = false /\ (c =? 92) = false /\ (c <? 32) = false.
Proof.
  unfold is_high_surrogate, is_low_surrogate.
  intros [H|H]; apply andb_prop in H; destruct H as [H _];
    apply N.leb_le in H; repeat split;
    try (apply N.eqb_neq; lia); apply N.ltb_ge; lia.
Qed.

(** A string literal written by [quote] is read back as the string. *)
Lemma parse_quote_units s : forall rest acc,
  Forall (fun c => c < 65536) s ->
  parse_string_body (quote_units s ++ 34 :: rest) acc = Some (List.rev acc ++ s, rest).
Proof.
  induction s as [s IH] using (well_founded_induction
    (Wf_nat.well_founded_ltof _ (@List.length N))).
  unfold Wf_nat.ltof in IH.
  intros rest acc Hs. destruct s as [|c r].
  - cbn. rewrite List.app_nil_r. reflexivity.
  - inversion Hs as [|? ? Hc Hr]; subst. cbn [quote_units].
    assert (Hplain :
      parse_string_body ((quote_unit c ++ quote_units r) ++ 34 :: rest) acc =
        Some (List.rev acc ++ c :: r, rest)).
    { rewrite <- List.app_assoc, parse_quote_unit by assumption.
      rewrite IH by (cbn; auto; lia). cbn [List.rev].
      rewrite <- List.app_assoc. reflexivity. }
    destruct (is_high_surrogate c) eqn:Eh; [|exact Hplain].
    destruct r as [|d r']; [|destruct (is_low_surrogate d) eqn:El; [|exact Hplain]].
    + cbn [quote_units] in Hplain. rewrite List.app_nil_r in Hplain. exact Hplain.
    + inversion Hr as [|? ? Hd Hr']; subst.
      destruct (surrogate_literal c (or_introl Eh)) as (A1 & A2 & A3).
      destruct (surrogate_literal d (or_intror El)) as (B1 & B2 & B3).
      change ((c :: d :: quote_units r') ++ 34 :: rest)
        with (c :: d :: quote_units r' ++ 34 :: rest).
      rewrite parse_literal, parse_literal by assumption.
      rewrite IH by (cbn; auto; lia). cbn [List.rev].
      rewrite <- !List.app_assoc. reflexivity.
Qed.

Lemma parse_value_string f s rest :
  Forall (fun c => c < 65536) s ->
  parse_value (S f) (quote s ++ rest) = Some (JStr s, rest).
Proof.
  intros Hs. unfold quote.
  change (([34] ++ quote_units s ++ [34]) ++ rest)
    with (34 :: (quote_units s ++ [34]) ++ rest).
  rewrite <- List.app_assoc. change ([34] ++ rest) with (34 :: rest).
  change (parse_value (S f) (34 :: quote_units s ++ 34 :: rest))
    with (match parse_string_body (quote_units s ++ 34 :: rest) [] with
          | Some (str, rest') => Some (JStr str, rest')
          | None => None
          end).
  rewrite parse_quote_units by assumption. reflexivity.
Qed.

(** ** Records and sequences *)

Import App.
Local Close Scope N_scope.

Definition well_formed (s : JSString) : Prop := Forall (fun c => (c < 65536)%N) s.

Lemma well_formed_lit s : well_formed (lit s).
Proof.
  unfold well_formed. induction s as [|a s IH]; rewrite ?lit_nil, ?lit_cons;
    constructor; [|exact IH].
  pose proof (N_ascii_bounded a). lia.
Qed.

Lemma skip_ws_cons c r : is_ws c = false -> skip_ws (c :: r) = c :: r.
Proof. intros H. cbn. rewrite H. reflexivity. Qed.

Lemma quote_cons s rest : quote s ++ rest = 34%N :: quote_units s ++ 34%N :: rest.
Proof. unfold quote. cbn [app]. rewrite <- List.app_assoc. reflexivity. Qed.

Lemma parse_members_more f k vtext v more acc :
  well_formed k ->
  parse_value f (vtext ++ 44%N :: more) = Some (v, 44%N :: more) ->
  parse_members (S f) (quote k ++ 58%N :: vtext ++ 44%N :: more) acc =
    parse_members f more (assoc_set k v acc).
Proof.
  intros Hk Hv. rewrite quote_cons. cbn [parse_members].
  rewrite skip_ws_cons by reflexivity. change ((34 =? 34)%N) with true. cbv iota.
  rewrite parse_quote_units by assumption. cbn [List.rev app].
  rewrite skip_ws_cons by reflexivity. change ((58 =? 58)%N) with true. cbv iota.
  rewrite Hv. rewrite skip_ws_cons by reflexivity. reflexivity.
Qed.

Lemma parse_members_last f k vtext v rest acc :
  well_formed k ->
  parse_value f (vtext ++ 125%N :: rest) = Some (v, 125%N :: rest) ->
  parse_members (S f) (quote k ++ 58%N :: vtext ++ 125%N :: rest) acc =
    Some (JObj (assoc_set k v acc), rest).
Proof.
  intros Hk Hv. rewrite quote_cons. cbn [parse_members].
  rewrite skip_ws_cons by reflexivity. change ((34 =? 34)%N) with true. cbv iota.
  rewrite parse_quote_units by assumption. cbn [List.rev app].
  rewrite skip_ws_cons by reflexivity. change ((58 =? 58)%N) with true. cbv iota.
  rewrite Hv. rewrite skip_ws_cons by reflexivity. reflexivity.
Qed.

Lemma digits_of_Z_head z :
  exists c r, digits_of_Z z = c :: r /\ ((c =? 45)%N || is_digit c) = true.
Proof.
  destruct z as [|p|p].
  - exists 48%N, []. split; reflexivity.
  - rewrite digits_of_Z_pos. destruct (to_uint_head p) as (d & ds & E & _).
    exists d, ds. split; [exact E|].
    pose proof (codes_digits (Pos.to_uint p)) as H. rewrite E in H.
    inversion H; subst. apply orb_true_iff. right. assumption.
  - rewrite digits_of_Z_neg. eexists. eexists. split; reflexivity.
Qed.

Lemma parse_value_number f z rest :
  ends_number rest ->
  parse_value (S f) (digits_of_Z z ++ rest) = Some (JNum (Dec z 0), rest).
Proof.
  intros He. pose proof (parse_number_digits z rest He) as Hn.
  destruct (digits_of_Z_head z) as (c & r & E & Hc). rewrite E in *.
  change ((c :: r) ++ rest) with (c :: r ++ rest) in *.
  assert (Hws : is_ws c = false /\ (c =? 91)%N = false /\ (c =? 123)%N = false
                /\ (c =? 34)%N = false).
  { apply orb_true_iff in Hc. destruct Hc as [Hc|Hc].
    - apply N.eqb_eq in Hc. subst. repeat split.
    - unfold is_digit in Hc. apply andb_prop in Hc. destruct Hc as [H1 H2].
      apply N.leb_le in H1, H2. unfold is_ws.
      repeat split; rewrite ?orb_false_iff; repeat split; apply N.eqb_neq; lia. }
  destruct Hws as (W & A1 & A2 & A3).
  cbn [parse_value]. rewrite skip_ws_cons by assumption.
  rewrite A1, A2, A3, Hc, Hn. reflexivity.
Qed.

Lemma stringify_Todo t :
  JSON.stringify (Todo_to_js t) =
    123%N :: quote (lit "id") ++ 58%N :: digits_of_Z (id t)
      ++ 44%N :: quote (lit "text") ++ 58%N :: quote (text t)
      ++ 44%N :: quote (lit "status") ++ 58%N :: quote (status_name (status t))
      ++ [125%N].
Proof.
  unfold Todo_to_js. cbn [JSON.stringify join number_to_string Z.leb Z.compare].
  rewrite Z.pow_0_r, Z.mul_1_r.
  change (lit "{") with [123%N]. change (lit "}") with [125%N].
  change (lit ",") with [44%N]. change (lit ":") with [58%N].
  repeat (progress (cbn [app]; rewrite <- ?List.app_assoc)). reflexivity.
Qed.

(** A record written by [JSON.stringify] is read back as it was. *)
Lemma parse_value_Todo f t rest :
  well_formed (text t) ->
  parse_value (5 + f) (JSON.stringify (Todo_to_js t) ++ rest) = Some (Todo_to_js t, rest).
Proof.
  intros Ht. rewrite stringify_Todo.
  change (5 + f)%nat with (S (S (S (S (S f))))).
  repeat (progress (cbn [app]; rewrite <- ?List.app_assoc)).
  cbn [parse_value]. rewrite skip_ws_cons by reflexivity.
  change ((123 =? 91)%N) with false. change ((123 =? 123)%N) with true. cbv iota.
  rewrite quote_cons at 1. rewrite skip_ws_cons by reflexivity.
  change ((34 =? 125)%N) with false. cbv iota. rewrite <- quote_cons.
  rewrite (@parse_members_more (S (S (S f))) (lit "id") (digits_of_Z (id t))
             (JNum (Dec (id t) 0)));
    [|apply well_formed_lit|apply parse_value_number; repeat split].
  rewrite (@parse_members_more (S (S f)) (lit "text") (quote (text t))
             (JStr (text t)));
    [|apply well_formed_lit|apply parse_value_string; assumption].
  rewrite (@parse_members_last (S f) (lit "status")
             (quote (status_name (status t)))
             (JStr (status_name (status t))));
    [reflexivity|apply well_formed_lit|].
  apply parse_value_string. destruct (status t); apply well_formed_lit.
Qed.

Definition well_formed_todos (l : list Todo) : Prop :=
  Forall (fun t => well_formed (text t)) l.

Lemma stringify_Todo_head t :
  exists r, JSON.stringify (Todo_to_js t) = 123%N :: r.
Proof. rewrite stringify_Todo. eexists. reflexivity. Qed.

Lemma parse_elems_Todos l : forall f acc rest,
  l <> [] ->
  well_formed_todos l ->
  parse_elems (List.length l + 5 + f)
    (join (lit ",") (map JSON.stringify (map Todo_to_js l)) ++ 93%N :: rest) acc =
    Some (JArr (List.rev acc ++ map Todo_to_js l), rest).
Proof.
  induction l as [|t l IH]; intros f acc rest Hne Hl; [congruence|].
  inversion Hl as [|? ? Ht Hl']; subst.
  change (List.length (t :: l) + 5 + f)%nat with (S (List.length l + 5 + f)).
  cbn [parse_elems].
  destruct l as [|t' l'].
  - cbn [map join].
    replace (List.length (@nil Todo) + 5 + f)%nat with (5 + f)%nat by reflexivity.
    rewrite parse_value_Todo by assumption.
    rewrite skip_ws_cons by reflexivity.
    change ((93 =? 44)%N) with false. change ((93 =? 93)%N) with true. cbv iota.
    cbn [List.rev map]. reflexivity.
  - change (join (lit ",") (map JSON.stringify (map Todo_to_js (t :: t' :: l'))))
      with (JSON.stringify (Todo_to_js t) ++ lit ","
              ++ join (lit ",") (map JSON.stringify (map Todo_to_js (t' :: l')))).
    rewrite <- !List.app_assoc. change (lit ",") with [44%N]. cbn [app].
    replace (List.length (t' :: l') + 5 + f)%nat
      with (5 + (List.length (t' :: l') + f))%nat by lia.
    rewrite parse_value_Todo by assumption.
    rewrite skip_ws_cons by reflexivity.
    change ((44 =? 44)%N) with true. cbv iota.
    replace (5 + (List.length (t' :: l') + f))%nat
      with (List.length (t' :: l') + 5 + f)%nat by lia.
    rewrite IH by (assumption || discriminate).
    cbn [List.rev map]. rewrite <- List.app_assoc. reflexivity.
Qed.

Lemma parse_value_Todos l f rest :
  well_formed_todos l ->
  parse_value (List.length l + 6 + f) (JSON.stringify (Todos_to_js l) ++ rest) =
    Some (Todos_to_js l, rest).
Proof.
  intros Hl. unfold Todos_to_js. cbn [JSON.stringify].
  change (lit "[") with [91%N]. change (lit "]") with [93%N].
  rewrite <- !List.app_assoc. cbn [app].
  replace (List.length l + 6 + f)%nat with (S (List.length l + 5 + f)) by lia.
  cbn [parse_value]. rewrite skip_ws_cons by reflexivity.
  change ((91 =? 91)%N) with true. cbv iota.
  destruct l as [|t l'] eqn:El.
  - reflexivity.
  - rewrite <- El in *.
    assert (Hh : exists r, join (lit ",") (map JSON.stringify (map Todo_to_js l))
                   ++ 93%N :: rest = 123%N :: r).
    { rewrite El. destruct (stringify_Todo_head t) as (r & E).
      destruct l' as [|t' l'']; cbn [map join]; rewrite E; eexists; reflexivity. }
    destruct Hh as (r & E).
    rewrite E at 1. rewrite skip_ws_cons by reflexivity.
    change ((123 =? 93)%N) with false. cbv iota. rewrite <- E.
    rewrite parse_elems_Todos by (assumption || (rewrite El; discriminate)).
    reflexivity.
Qed.

Lemma join_length (parts : list JSString) sep :
  (forall x, In x parts -> x <> []) ->
  (List.length parts <= List.length (join sep parts))%nat.
Proof.
  induction parts as [|x [|y parts] IH]; intros H.
  - cbn. lia.
  - specialize (H x (or_introl eq_refl)). destruct x; [congruence|cbn; lia].
  - pose proof (H x (or_introl eq_refl)) as Hx.
    change (join sep (x :: y :: parts)) with (x ++ sep ++ join sep (y :: parts)).
    rewrite !List.length_app.
    assert (List.length (y :: parts) <= List.length (join sep (y :: parts)))%nat
      by (apply IH; intros z Hz; apply H; right; exact Hz).
    assert (1 <= List.length x)%nat by (destruct x; [congruence|cbn; lia]).
    change (List.length (x :: y :: parts)) with (S (List.length (y :: parts))).
    lia.
Qed.

(** The text [JSON.stringify] writes for a sequence of records is read
    back by [JSON.parse] as the same sequence. *)
Lemma parse_stringify_Todos l :
  well_formed_todos l ->
  JSON.parse (JSON.stringify (Todos_to_js l)) = Return (Todos_to_js l).
Proof.
  intros Hl. unfold JSON.parse.
  set (text := JSON.stringify (Todos_to_js l)).
  assert (Hlen : (List.length l + 2 <= List.length text)%nat).
  { subst text. unfold Todos_to_js. cbn [JSON.stringify].
    rewrite !List.length_app. change (List.length (lit "[")) with 1%nat.
    change (List.length (lit "]")) with 1%nat.
    pose proof (join_length (map JSON.stringify (map Todo_to_js l)) (lit ",")) as H.
    rewrite !List.length_map in H.
    assert (forall x, In x (map JSON.stringify (map Todo_to_js l)) -> x <> []).
    { intros x Hx. rewrite List.map_map in Hx. apply List.in_map_iff in Hx.
      destruct Hx as (t & <- & _). destruct (stringify_Todo_head t) as (r & ->).
      discriminate. }
    specialize (H H0). lia. }
  replace (2 * List.length text + 2)%nat
    with (List.length l + 6 + (2 * List.length text - List.length l - 4))%nat by lia.
  rewrite <- (List.app_nil_r text) at 2.
  subst text. rewrite parse_value_Todos by assumption. reflexivity.
Qed.

Lemma status_of_name_name s : status_of_name (status_name s) = Some s.
Proof. destruct s; reflexivity. Qed.

Lemma Todo_of_js_to_js t : Todo_of_js (Todo_to_js t) = Some t.
Proof.
  destruct t as [i x s]. unfold Todo_to_js, Todo_of_js. cbn [id text status].
  replace (string_eqb (lit "id") (lit "id") && string_eqb (lit "text") (lit "text")
           && string_eqb (lit "status") (lit "status")) with true by reflexivity.
  rewrite status_of_name_name. reflexivity.
Qed.

(** A sequence of records is read back from the value it is at run time. *)
Lemma Todos_of_js_to_js l : Todos_of_js (Todos_to_js l) = Some l.
Proof.
  unfold Todos_to_js, Todos_of_js.
  induction l as [|t l IH]; [reflexivity|].
  cbn [map Todos_of_list]. rewrite Todo_of_js_to_js, IH. reflexivity.
Qed.

End Serialization.

(** * The component as a whole *)

(** ** Saving and loading *)

Lemma stringify_Todos_head l : exists r, JSON.stringify (Todos_to_js l) = 91%N :: r.
Proof. unfold Todos_to_js. cbn [JSON.stringify]. eexists. reflexivity. Qed.

(** What [loadTodos] does in a browser whose stored text parses. *)
Lemma loadTodos_browser env c s v :
  electronAPI env = None ->
  getItem env (lit "todos") = Some s ->
  s <> [] ->
  JSON.parse s = Return v ->
  loadTodos env (start c) =
    {| completion := Return (Fulfilled tt);
       context := start c;
       now := [GetItem (lit "todos"); SetTodosAny v];
       later := [] |}.
Proof.
  intros Ha Hg Hs Hp. run_load. rewrite Ha. cbn. rewrite Hg.
  destruct s as [|x s]; [congruence|]. cbn. rewrite Hp. reflexivity.
Qed.

(** X1.  What [saveTodos] writes to [localStorage] for a sequence, a later
    [loadTodos] that finds it there reads back as the same sequence, the
    empty one included: the component mounted on it starts with the
    records that were saved. *)
Theorem saved_sequence_loads_back env env' p p' l :
  electronAPI env = None ->
  Serialization.well_formed_todos l ->
  exists s,
    now (saveTodos env l (start p)) = [SetItem (lit "todos") s] /\
    (electronAPI env' = None ->
     getItem env' (lit "todos") = Some s ->
     completion (loadTodos env' (start p')) = Return (Fulfilled tt) /\
     effects (loadTodos env' (start p')) =
       [GetItem (lit "todos"); SetTodosAny (Todos_to_js l)] /\
     next_state initial (effects (mount env' (start p'))) =
       Some {| todos := l; newTodo := []; filter := All |}).
Proof.
  intros Ha Hl. exists (JSON.stringify (Todos_to_js l)). split.
  - rewrite saveTodos_run. unfold save_call. rewrite Ha. reflexivity.
  - intros Ha' Hg.
    assert (Hs : JSON.stringify (Todos_to_js l) <> []).
    { destruct (stringify_Todos_head l) as (r & ->). discriminate. }
    pose proof (@loadTodos_browser env' p' _ _ Ha' Hg Hs
                  (Serialization.parse_stringify_Todos Hl)) as E.
    unfold mount, bind, effects, dropped. rewrite E.
    cbn [completion context now later report app next_state update].
    rewrite Serialization.Todos_of_js_to_js. repeat split.
Qed.

(** X2.  On the host the same holds without a text in between: the data
    [saveTodos] hands to [saveOfflineData], when [getOfflineData] hands it
    back, is loaded as the sequence that was saved. *)
Theorem host_saved_sequence_loads_back env api env' api' p p' l :
  electronAPI env = Some api ->
  exists data,
    now (saveTodos env l (start p)) = [SaveOfflineData data] /\
    (electronAPI env' = Some api' ->
     getOfflineData api' = Fulfilled data ->
     completion (loadTodos env' (start p')) = Return (Fulfilled tt) /\
     effects (loadTodos env' (start p')) =
       [GetOfflineData; SetTodosAny (Todos_to_js l)] /\
     next_state initial (effects (mount env' (start p'))) =
       Some {| todos := l; newTodo := []; filter := All |}).
Proof.
  intros Ha. exists (JObj [(lit "todos", Todos_to_js l)]). split.
  - rewrite saveTodos_run. unfold save_call. rewrite Ha. reflexivity.
  - intros Ha' Hg.
    assert (E : loadTodos env' (start p') =
      {| completion := Return (Fulfilled tt);
         context := start p';
         now := [GetOfflineData];
         later := [SetTodosAny (Todos_to_js l)] |}).
    { run_load. rewrite Ha'. cbn. rewrite Hg. reflexivity. }
    unfold mount, bind, effects, dropped. rewrite E.
    cbn [completion context now later report app next_state update].
    rewrite Serialization.Todos_of_js_to_js. repeat split.
Qed.

(** X3.  In the browser a stored text that [JSON.parse] does not accept
    makes the promise of [loadTodos] reject with the error of the parser;
    nobody handles the rejection, no state is set, and the component keeps
    the state it has. *)
Theorem unparsable_text_rejects env p st s e :
  electronAPI env = None ->
  getItem env (lit "todos") = Some s ->
  s <> [] ->
  JSON.parse s = Throw e ->
  completion (loadTodos env (start p)) = Return (Rejected e) /\
  effects (mount env (start p)) = [GetItem (lit "todos"); UnhandledRejection e] /\
  next_state st (effects (mount env (start p))) = Some st.
Proof.
  intros Ha Hg Hs Hp.
  assert (E : loadTodos env (start p) =
    {| completion := Return (Rejected e);
       context := start p;
       now := [GetItem (lit "todos")];
       later := [] |}).
  { run_load. rewrite Ha. cbn. rewrite Hg.
    destruct s as [|x s]; [congruence|]. cbn. rewrite Hp. reflexivity. }
  unfold mount, bind, effects, dropped. rewrite E. repeat split.
Qed.

(** ** One save for each mutation *)

Definition is_save (ev : Effect) : bool :=
  match ev with
  | SaveOfflineData _ | SetItem _ _ => true
  | _ => false
  end.

(** Whether an event changes the sequence: a delete, a toggle, and an add
    when the text field holds more than white space. *)
Definition mutates (st : State) (ev : Event) : bool :=
  match ev with
  | Add => match trim (newTodo st) with [] => false | _ :: _ => true end
  | Delete _ | Toggle _ => true
  | Change _ | Select _ => false
  end.

Lemma filter_is_save_notification evs :
  forallb is_notification evs = true -> List.filter is_save evs = [].
Proof.
  induction evs as [|ev evs IH]; [reflexivity|]. cbn [forallb].
  intros H. apply andb_prop in H. destruct H as [Hev Hevs].
  cbn [List.filter]. rewrite IH by assumption.
  destruct ev; cbn in Hev; try discriminate; reflexivity.
Qed.

Lemma filter_is_save_report A (q : Promise A) : List.filter is_save (report q) = [].
Proof. destruct q; reflexivity. Qed.

Lemma is_save_save_call env l : is_save (save_call env l) = true.
Proof. unfold save_call. destruct (electronAPI env); reflexivity. Qed.

Lemma filter_is_save_tail env l title body p (q : Promise unit) extra :
  List.filter is_save extra = [] ->
  List.filter is_save
    ((SetTodos l :: save_call env l
        :: extra ++ now (showNotification env title body (start p)))
     ++ report q ++ later (showNotification env title body (start p))) =
  [save_call env l].
Proof.
  intros Hx. destruct (showNotification_effects env title body p) as [Hn Hl].
  cbn [app List.filter is_save]. rewrite is_save_save_call.
  rewrite !List.filter_app, Hx, filter_is_save_report.
  rewrite !filter_is_save_notification by assumption. reflexivity.
Qed.

(** X4.  Every event leaves a next state.  An event that changes the
    sequence calls the backend save exactly once, with the whole new
    sequence; typing, choosing a filter and adding a blank text call no
    save and leave the sequence as it is. *)
Theorem one_save_per_mutation env p st ev :
  exists st',
    step env p st ev = Some st' /\
    List.filter is_save (effects (handle env st ev (start p))) =
      (if mutates st ev then [save_call env (todos st')] else []) /\
    (mutates st ev = false -> todos st' = todos st).
Proof.
  destruct ev as [value| |id0|id0|value]; cbn [mutates handle].
  - eexists. split; [reflexivity|]. split; [reflexivity|]. reflexivity.
  - destruct (trim (newTodo st)) as [|c r] eqn:Et.
    + exists st. split; [apply step_Add_blank; assumption|].
      rewrite addTodo_blank by assumption. split; [reflexivity|]. reflexivity.
    + assert (Hne : trim (newTodo st) <> []) by congruence.
      eexists. split; [apply step_Add; assumption|].
      unfold effects. rewrite addTodo_now, addTodo_later by assumption.
      split; [|discriminate]. cbn [todos].
      apply (@filter_is_save_tail env (added env st) _ _ p _ [SetNewTodo []]).
      reflexivity.
  - eexists. split; [apply step_Delete|].
    unfold effects. rewrite deleteTodo_now, deleteTodo_later.
    split; [|discriminate]. cbn [todos].
    apply (@filter_is_save_tail env (deleted st id0) _ _ p _ []). reflexivity.
  - eexists. split; [apply step_Toggle|].
    unfold effects. rewrite toggleTodoStatus_now, toggleTodoStatus_later.
    split; [|discriminate]. cbn [todos].
    apply (@filter_is_save_tail env (toggled_all st id0) _ _ p _ []). reflexivity.
  - eexists. split; [reflexivity|]. split; [reflexivity|]. reflexivity.
Qed.

(** ** Entry points

    Everything the rendered component starts: the effect of mounting
    (lines 48-50), the events of the form and of the list, and the two
    buttons whose handlers are asynchronous (lines 241 and 251). *)
Inductive Entry :=
| OnMount
| OnEvent (ev : Event)
| OnClickDelete (dialog : Dialog) (id0 : Z)
| OnClickEnable.

Definition react (env : Env) (st : State) (entry : Entry) : M unit :=
  match entry with
  | OnMount => mount env
  | OnEvent ev => handle env st ev
  | OnClickDelete dialog id0 => click_delete env dialog st id0
  | OnClickEnable => click_enable env
  end.

(** The permission [showNotification] and [enableNotifications] leave. *)
Definition asked_permission (env : Env) (p : Permission) : Permission :=
  match electronAPI env, p with
  | None, default => answer env
  | _, _ => p
  end.

Lemma showNotification_any env title body c :
  completion (showNotification env title body c) = Return tt /\
  deferred (context (showNotification env title body c)) = deferred c /\
  forallb is_notification (effects (showNotification env title body c)) = true /\
  (deferred c = true -> now (showNotification env title body c) = []).
Proof.
  unfold showNotification, Notification_requestPermission.
  destruct c as [[] []]; destruct (electronAPI env); try destruct (answer env);
    cbn; repeat split; try reflexivity; intros; discriminate.
Qed.

Lemma saveTodos_any env l c :
  saveTodos env l c =
    {| completion := Return (save_result env l);
       context := {| permission := permission c; deferred := deferred c |};
       now := if deferred c then [] else [save_call env l];
       later := if deferred c then [save_call env l] else [] |}.
Proof.
  unfold saveTodos, save_result, save_call, async, bind, await, emit,
    electron_saveOfflineData, localStorage_setItem.
  destruct (electronAPI env) as [api|]; cbn.
  - destruct (saveOfflineData api _) as [[]|e]; destruct (deferred c); reflexivity.
  - destruct (setItem env _ _); destruct (deferred c); reflexivity.
Qed.

(** [deleteTodo] when it runs behind an [await]: everything comes later. *)
Lemma deleteTodo_deferred env st id0 p :
  let c := {| permission := p; deferred := true |} in
  completion (deleteTodo env st id0 c) = Return tt /\
  now (deleteTodo env st id0 c) = [] /\
  later (deleteTodo env st id0 c) =
    SetTodos (deleted st id0) :: save_call env (deleted st id0)
      :: report (save_result env (deleted st id0))
      ++ later (showNotification env (lit "Todo Deleted")
                  (lit "A todo has been deleted.") c) /\
  context (deleteTodo env st id0 c) =
    context (showNotification env (lit "Todo Deleted")
               (lit "A todo has been deleted.") c).
Proof.
  intros c.
  destruct (showNotification_any env (lit "Todo Deleted")
              (lit "A todo has been deleted.") c) as (Hc & _ & _ & Hn).
  specialize (Hn eq_refl).
  unfold deleteTodo, deleted, bind, emit, dropped. cbn.
  rewrite saveTodos_any. cbn. fold c. rewrite Hc, Hn. cbn. repeat split.
Qed.

(** ** Deleting after a confirmation *)

Arguments deleteTodo : simpl never.

(** The answer [confirmDelete] gets to its question. *)
Definition dialog_answer (env : Env) (dialog : Dialog) : Promise JSValue :=
  match electronAPI env with
  | Some _ => showConfirmDialog dialog delete_question
  | None => Fulfilled (JBool (confirm dialog delete_question))
  end.

(** X5.  [confirmDelete] deletes only after a truthy answer to its
    question.  Then it leaves the state a delete leaves and saves the
    sequence without the record; after any other answer it has no effect
    at all, and when the host's dialog fails its promise rejects and
    nothing is deleted. *)
Theorem confirmDelete_asks_first env dialog p st id0 :
  match dialog_answer env dialog with
  | Rejected e =>
      completion (confirmDelete env dialog st id0 (start p)) = Return (Rejected e) /\
      effects (confirmDelete env dialog st id0 (start p)) = []
  | Fulfilled v =>
      completion (confirmDelete env dialog st id0 (start p)) = Return (Fulfilled tt) /\
      if truthy v then
        next_state st (effects (confirmDelete env dialog st id0 (start p))) =
          step env p st (Delete id0) /\
        List.filter is_save (effects (confirmDelete env dialog st id0 (start p))) =
          [save_call env (deleted st id0)]
      else effects (confirmDelete env dialog st id0 (start p)) = []
  end.
Proof.
  unfold dialog_answer, confirmDelete.
  destruct (electronAPI env) as [api|] eqn:Ha.
  - destruct (showConfirmDialog dialog delete_question) as [v|e]; [|split; reflexivity].
    rewrite step_Delete.
    unfold async, bind, await, when, effects. cbn.
    destruct (truthy v); [|split; reflexivity].
    destruct (deleteTodo_deferred env st id0 p) as (Hc & Hn & Hl & _).
    cbv zeta in Hc, Hn, Hl. rewrite Hc, Hn, Hl. cbn [app].
    destruct (showNotification_any env (lit "Todo Deleted")
                (lit "A todo has been deleted.")
                {| permission := p; deferred := true |}) as (_ & _ & Hall & Hnow).
    unfold effects in Hall. rewrite (Hnow eq_refl) in Hall. cbn [app] in Hall.
    split; [reflexivity|]. split.
    + rewrite next_state_SetTodos.
      rewrite next_state_cons_other by apply save_call_other.
      apply next_state_other, no_state_update_app;
        auto using report_other, notification_other.
    + cbn [List.filter is_save]. rewrite is_save_save_call.
      rewrite List.filter_app, filter_is_save_report.
      rewrite filter_is_save_notification by assumption. reflexivity.
  - unfold async, bind, ret, when. cbn.
    destruct (confirm dialog delete_question); cbn [truthy]; [|split; reflexivity].
    fold_start.
    pose proof (handle_returns env st (Delete id0) p) as Hc. cbn [handle] in Hc.
    rewrite Hc. split; [reflexivity|]. split.
    + reflexivity.
    + unfold effects. cbn [now later].
      rewrite deleteTodo_now, deleteTodo_later.
      apply (@filter_is_save_tail env (deleted st id0) _ _ p _ []). reflexivity.
Qed.

(** ** Notifications *)

(** X6.  [showNotification] never throws.  With a host it hands the
    notification to the host.  In the browser it shows it at once when the
    permission is granted; otherwise it asks for the permission, also when
    the permission is denied already, and shows the notification later if
    the permission has become granted, a denied permission staying
    denied. *)
Theorem showNotification_by_permission env title body p :
  completion (showNotification env title body (start p)) = Return tt /\
  permission (context (showNotification env title body (start p))) =
    asked_permission env p /\
  match electronAPI env with
  | Some _ =>
      effects (showNotification env title body (start p)) =
        [ElectronNotification title body]
  | None =>
      now (showNotification env title body (start p)) =
        (if Permission_eqb p granted then [NewNotification title body]
         else [RequestPermission]) /\
      later (showNotification env title body (start p)) =
        (if Permission_eqb p default && Permission_eqb (answer env) granted
         then [NewNotification title body] else [])
  end.
Proof.
  unfold asked_permission, showNotification, Notification_requestPermission.
  destruct p; destruct (electronAPI env); try destruct (answer env);
    repeat split.
Qed.

(** X7.  [enableNotifications] never fails and touches neither the state
    nor a backend: all it does is notify.  With a host it sends the
    confirmation to the host; in the browser it always asks for the
    permission and shows the confirmation exactly when the permission is
    granted after that. *)
Theorem enableNotifications_only_notifies env p st :
  completion (enableNotifications env (start p)) = Return (Fulfilled tt) /\
  forallb is_notification (effects (enableNotifications env (start p))) = true /\
  next_state st (effects (enableNotifications env (start p))) = Some st /\
  permission (context (enableNotifications env (start p))) = asked_permission env p /\
  match electronAPI env with
  | Some _ =>
      effects (enableNotifications env (start p)) =
        [ElectronNotification enabled_title enabled_body]
  | None =>
      now (enableNotifications env (start p)) = [RequestPermission] /\
      later (enableNotifications env (start p)) =
        (if Permission_eqb (asked_permission env p) granted
         then [NewNotification enabled_title enabled_body] else [])
  end.
Proof.
  unfold asked_permission, enableNotifications, Notification_requestPermission.
  destruct p; destruct (electronAPI env); try destruct (answer env);
    repeat split.
Qed.

(** ** One backend *)

Definition uses_browser (ev : Effect) : bool :=
  match ev with
  | GetItem _ | SetItem _ _ | RequestPermission | NewNotification _ _ => true
  | _ => false
  end.

Definition uses_host (ev : Effect) : bool :=
  match ev with
  | GetOfflineData | SaveOfflineData _ | ElectronNotification _ _ => true
  | _ => false
  end.

(** An effect that keeps to the backend of the environment. *)
Definition right_backend (env : Env) (ev : Effect) : bool :=
  match electronAPI env with
  | Some _ => negb (uses_browser ev)
  | None => negb (uses_host ev)
  end.

Lemma right_backend_show env title body c :
  forallb (right_backend env) (now (showNotification env title body c)) = true /\
  forallb (right_backend env) (later (showNotification env title body c)) = true.
Proof.
  unfold right_backend, showNotification, Notification_requestPermission.
  destruct c as [[] []]; destruct (electronAPI env); try destruct (answer env);
    split; reflexivity.
Qed.

Lemma right_backend_save_call env l : right_backend env (save_call env l) = true.
Proof. unfold right_backend, save_call. destruct (electronAPI env); reflexivity. Qed.

Lemma right_backend_report env A (q : Promise A) :
  forallb (right_backend env) (report q) = true.
Proof. unfold right_backend. destruct q, (electronAPI env); reflexivity. Qed.

Lemma right_backend_state env ev :
  is_state_update ev = true -> right_backend env ev = true.
Proof.
  unfold right_backend. destruct ev, (electronAPI env); cbn; congruence.
Qed.

Lemma right_backend_mutation env l extra title body c (q : Promise unit) :
  forallb (right_backend env) extra = true ->
  forallb (right_backend env)
    ((SetTodos l :: save_call env l
        :: extra ++ now (showNotification env title body c))
     ++ report q ++ later (showNotification env title body c)) = true.
Proof.
  intros Hx. destruct (right_backend_show env title body c) as [Hn Hl].
  cbn [app forallb]. rewrite right_backend_save_call.
  rewrite (@right_backend_state env (SetTodos l)) by reflexivity.
  rewrite !forallb_app, Hx, Hn, Hl, right_backend_report. reflexivity.
Qed.

Lemma right_backend_handle env st ev p :
  forallb (right_backend env) (effects (handle env st ev (start p))) = true.
Proof.
  destruct ev as [value| |id0|id0|value]; cbn [handle].
  - cbn. rewrite right_backend_state; reflexivity.
  - destruct (trim (newTodo st)) as [|c r] eqn:Et.
    + rewrite addTodo_blank by assumption. reflexivity.
    + unfold effects. rewrite addTodo_now, addTodo_later by congruence.
      apply (@right_backend_mutation env _ [SetNewTodo []]).
      cbn. rewrite right_backend_state; reflexivity.
  - unfold effects. rewrite deleteTodo_now, deleteTodo_later.
    apply (@right_backend_mutation env _ []). reflexivity.
  - unfold effects. rewrite toggleTodoStatus_now, toggleTodoStatus_later.
    apply (@right_backend_mutation env _ []). reflexivity.
  - cbn. rewrite right_backend_state; reflexivity.
Qed.

Lemma loadTodos_any env c :
  permission (context (loadTodos env c)) = permission c /\
  deferred (context (loadTodos env c)) = deferred c /\
  forallb (right_backend env) (effects (loadTodos env c)) = true /\
  forallb (right_backend env)
    (report (match completion (loadTodos env c) with
             | Return q => q
             | Throw e => Rejected e
             end)) = true.
Proof.
  destruct c as [p d]. unfold right_backend. run_load.
  destruct (electronAPI env) as [api|]; cbn.
  - destruct (getOfflineData api) as [data|e]; cbn;
      [destruct (truthy data && truthy (get data (lit "todos")))|];
      destruct d; cbn; repeat split.
  - destruct (getItem env (lit "todos")) as [[|x s]|]; cbn;
      [| destruct (JSON.parse (x :: s)) |];
      destruct d; cbn; repeat split.
Qed.


(** ** Texts *)

(** A text that does not start with white space. *)
Definition no_lead (s : JSString) : Prop :=
  match s with
  | c :: _ => is_trim_space c = false
  | [] => True
  end.

Lemma trimStart_no_lead s : no_lead (trimStart s).
Proof.
  induction s as [|c r IH]; cbn; [exact I|].
  destruct (is_trim_space c) eqn:E; [exact IH|exact E].
Qed.

Lemma trimStart_id s : no_lead s -> trimStart s = s.
Proof. destruct s as [|c r]; cbn; [reflexivity|]. intros ->. reflexivity. Qed.

Lemma trimStart_suffix s :
  exists pre, s = pre ++ trimStart s.
Proof.
  induction s as [|c r [pre IH]]; [exists []; reflexivity|]. cbn.
  destruct (is_trim_space c); [|exists []; reflexivity].
  exists (c :: pre). cbn. rewrite <- IH. reflexivity.
Qed.

Lemma trimEnd_prefix s : exists post, s = trimEnd s ++ post.
Proof.
  unfold trimEnd. destruct (trimStart_suffix (List.rev s)) as [pre E].
  exists (List.rev pre).
  rewrite <- List.rev_app_distr, <- E, List.rev_involutive. reflexivity.
Qed.

Lemma trimEnd_no_lead s : no_lead s -> no_lead (trimEnd s).
Proof.
  intros H. destruct (trimEnd_prefix s) as [post E].
  destruct (trimEnd s) as [|c r]; [exact I|].
  rewrite E in H. exact H.
Qed.

Lemma trimEnd_id s : no_lead (List.rev s) -> trimEnd s = s.
Proof.
  intros H. unfold trimEnd. rewrite trimStart_id by assumption.
  apply List.rev_involutive.
Qed.

Lemma trim_no_lead s : no_lead (trim s).
Proof. apply trimEnd_no_lead, trimStart_no_lead. Qed.

Lemma trim_no_trail s : no_lead (List.rev (trim s)).
Proof.
  unfold trim, trimEnd. rewrite List.rev_involutive. apply trimStart_no_lead.
Qed.

(** Trimming a trimmed text changes nothing. *)
Lemma trim_trim s : trim (trim s) = trim s.
Proof.
  unfold trim at 1. rewrite trimStart_id by apply trim_no_lead.
  apply trimEnd_id, trim_no_trail.
Qed.

(** A text as [addTodo] stores it: not empty, no white space at either
    end. *)
Definition tidy (s : JSString) : Prop := s <> [] /\ trim s = s.

Lemma step_todos env p st ev st' :
  step env p st ev = Some st' ->
  todos st' =
    match ev with
    | Add => match trim (newTodo st) with [] => todos st | _ :: _ => added env st end
    | Delete id0 => deleted st id0
    | Toggle id0 => toggled_all st id0
    | Change _ | Select _ => todos st
    end.
Proof.
  destruct ev as [value| |id0|id0|value].
  - intros H. cbv in H. injection H as <-. reflexivity.
  - destruct (trim (newTodo st)) as [|c r] eqn:Et.
    + rewrite step_Add_blank by assumption. intros H. injection H as <-. reflexivity.
    + rewrite step_Add by congruence. intros H. injection H as <-. reflexivity.
  - rewrite step_Delete. intros H. injection H as <-. reflexivity.
  - rewrite step_Toggle. intros H. injection H as <-. reflexivity.
  - intros H. cbv in H. injection H as <-. reflexivity.
Qed.

(** X9.  Every record the component creates has a text that is not empty
    and has no white space at either end, and no event changes that: from
    a sequence of records with such texts, the empty one for instance, the
    component only reaches sequences of records with such texts. *)
Theorem texts_stay_tidy s0 st :
  Forall (fun todo => tidy (text todo)) (todos s0) ->
  reachable any_step s0 st ->
  Forall (fun todo => tidy (text todo)) (todos st).
Proof.
  intros H0 Hr. induction Hr as [|st env p ev st' Hr IH _ Hs]; [exact H0|].
  apply step_todos in Hs. rewrite Hs. clear Hs.
  destruct ev as [value| |id0|id0|value]; try exact IH.
  - destruct (trim (newTodo st)) as [|c r] eqn:Et; [exact IH|].
    unfold added. apply Forall_app. split; [exact IH|].
    constructor; [|constructor]. cbn [text]. rewrite Et. split; [discriminate|].
    rewrite <- Et. apply trim_trim.
  - unfold deleted. rewrite Forall_forall in *. intros t Ht.
    apply filter_In in Ht. apply IH, Ht.
  - unfold toggled_all. rewrite Forall_forall in *. intros t Ht.
    apply in_map_iff in Ht. destruct Ht as (t0 & <- & Ht0).
    destruct (id t0 =? id0)%Z; [cbn [toggled text]|]; apply IH, Ht0.
Qed.

(** ** Sequences of events *)

(** X10.  A second add right after an add does nothing: the add that
    worked has emptied the text field, so the same text is not added
    twice. *)
Theorem add_twice_adds_once env1 p1 env2 p2 st :
  trim (newTodo st) <> [] ->
  exists st1,
    step env1 p1 st Add = Some st1 /\
    List.length (todos st1) = S (List.length (todos st)) /\
    newTodo st1 = [] /\
    effects (addTodo env2 st1 (start p2)) = [] /\
    step env2 p2 st1 Add = Some st1.
Proof.
  intros Ht. eexists. split; [apply step_Add; assumption|].
  cbn [todos newTodo]. split; [unfold added; rewrite length_app; cbn; lia|].
  split; [reflexivity|]. split.
  - rewrite addTodo_blank by reflexivity. reflexivity.
  - apply step_Add_blank. reflexivity.
Qed.

(** X11.  An add followed by the delete of the id the add took from the
    clock leaves the sequence without the new record, and without any
    older record that had the same id; when the clock reading was not an
    id of the sequence, the sequence is what it was before the add. *)
Theorem add_then_delete env1 p1 env2 p2 st :
  trim (newTodo st) <> [] ->
  exists st1 st2,
    step env1 p1 st Add = Some st1 /\
    step env2 p2 st1 (Delete (Date_now env1)) = Some st2 /\
    todos st2 =
      List.filter (fun todo => negb (id todo =? Date_now env1)%Z) (todos st) /\
    (~ In (Date_now env1) (map id (todos st)) -> todos st2 = todos st).
Proof.
  intros Ht. eexists. eexists.
  split; [apply step_Add; assumption|]. split; [apply step_Delete|].
  cbn [todos]. unfold deleted, added. cbn [todos].
  rewrite List.filter_app. cbn [List.filter id]. rewrite Z.eqb_refl. cbn [negb].
  rewrite List.app_nil_r. split; [reflexivity|].
  intros Hn. apply (deleted_unknown st). exact Hn.
Qed.

(** ** One id, one record *)

Lemma deleted_other l id0 :
  ~ In id0 (map id l) ->
  List.filter (fun todo => negb (id todo =? id0)%Z) l = l.
Proof.
  induction l as [|t l IH]; cbn; [reflexivity|]. intros H.
  destruct (Z.eqb_spec (id t) id0) as [E|E]; [tauto|].
  cbn. f_equal. apply IH. tauto.
Qed.

Lemma toggled_other l id0 :
  ~ In id0 (map id l) ->
  map (fun todo => if (id todo =? id0)%Z then toggled todo else todo) l = l.
Proof.
  induction l as [|t l IH]; cbn; [reflexivity|]. intros H.
  destruct (Z.eqb_spec (id t) id0) as [E|E]; [tauto|].
  f_equal. apply IH. tauto.
Qed.

(** X12.  While ids are unique an id addresses one record: the delete of
    an id of the sequence removes that one record and the toggle of it
    replaces that one record, every other record staying at its place. *)
Theorem unique_id_addresses_one_record env p st id0 :
  unique_ids (todos st) ->
  In id0 (map id (todos st)) ->
  exists pre todo post,
    todos st = pre ++ todo :: post /\
    id todo = id0 /\
    step env p st (Delete id0) =
      Some {| todos := pre ++ post; newTodo := newTodo st;
              filter := filter st |} /\
    step env p st (Toggle id0) =
      Some {| todos := pre ++ toggled todo :: post; newTodo := newTodo st;
              filter := filter st |}.
Proof.
  intros Hu Hin. apply unique_ids_NoDup in Hu.
  apply in_map_iff in Hin. destruct Hin as (t & Hid & Hin).
  apply in_split in Hin. destruct Hin as (pre & post & E).
  exists pre, t, post. split; [exact E|]. split; [exact Hid|].
  rewrite E, map_app in Hu. cbn [map] in Hu.
  pose proof (NoDup_remove_2 _ _ _ Hu) as Hn. rewrite Hid in Hn.
  assert (Hpre : ~ In id0 (map id pre)) by (intros H; apply Hn, in_or_app; tauto).
  assert (Hpost : ~ In id0 (map id post)) by (intros H; apply Hn, in_or_app; tauto).
  split.
  - rewrite step_Delete. unfold deleted. rewrite E, List.filter_app.
    cbn [List.filter]. rewrite Hid, Z.eqb_refl. cbn [negb].
    rewrite !deleted_other by assumption. reflexivity.
  - rewrite step_Toggle. unfold toggled_all. rewrite E, map_app.
    cbn [map]. rewrite Hid, Z.eqb_refl.
    rewrite !toggled_other by assumption. reflexivity.
Qed.

(** ** Views after a mutation *)

Lemma filteredTodos_with_filter st f :
  filteredTodos (with_filter st f) =
    List.filter (fun todo =>
                   match f with
                   | All => true
                   | _ => string_eqb (status_name (status todo)) (filter_name f)
                   end) (todos st).
Proof.
  unfold filteredTodos, with_filter. cbn [App.filter todos].
  destruct f; try reflexivity.
  change (string_eqb (filter_name All) (lit "All")) with true. cbv iota.
  induction (todos st) as [|t l IH]; [reflexivity|].
  cbn [List.filter]. rewrite <- IH. reflexivity.
Qed.

(** X13.  What the three views show after an add or a delete: a new record
    comes last in the view of all records and in the view of pending ones
    and does not show among the completed ones, a blank add changes no
    view; a delete removes the records of the id from each view and keeps
    the order of the others. *)
Theorem views_after_add_and_delete env p st f :
  (exists st1,
     step env p st Add = Some st1 /\
     filteredTodos (with_filter st1 f) =
       match trim (newTodo st), f with
       | [], _ | _, OnlyCompleted => filteredTodos (with_filter st f)
       | _, _ => filteredTodos (with_filter st f) ++
                 [{| id := Date_now env; text := trim (newTodo st);
                     status := Pending |}]
       end) /\
  (forall id0, exists st1,
     step env p st (Delete id0) = Some st1 /\
     filteredTodos (with_filter st1 f) =
       List.filter (fun todo => negb (id todo =? id0)%Z)
                   (filteredTodos (with_filter st f))).
Proof.
  split.
  - destruct (trim (newTodo st)) as [|c r] eqn:Et.
    + exists st. split; [apply step_Add_blank; assumption|reflexivity].
    + eexists. split; [apply step_Add; congruence|].
      rewrite !filteredTodos_with_filter. cbn [todos]. unfold added.
      rewrite List.filter_app, Et.
      destruct f; cbn [List.filter status status_name filter_name];
        try reflexivity.
      apply List.app_nil_r.
  - intros id0. eexists. split; [apply step_Delete|].
    rewrite !filteredTodos_with_filter. cbn [todos]. unfold deleted.
    generalize (todos st) as l. induction l as [|t l IH]; [reflexivity|].
    cbn [List.filter].
    destruct (negb (id t =? id0)%Z) eqn:E1;
      cbn [List.filter];
      destruct (match f with All => true | _ => _ end) eqn:E2;
      cbn [List.filter]; rewrite ?E1, ?E2, IH; reflexivity.
Qed.

(** The view in which a record shows after a toggle. *)
Definition other_view (f : Filter) : Filter :=
  match f with
  | All => All
  | OnlyPending => OnlyCompleted
  | OnlyCompleted => OnlyPending
  end.

Lemma toggled_view todo f :
  match f with
  | All => true
  | _ => string_eqb (status_name (status (toggled todo))) (filter_name f)
  end =
  match other_view f with
  | All => true
  | _ => string_eqb (status_name (status todo)) (filter_name (other_view f))
  end.
Proof. destruct todo as [i x []], f; reflexivity. Qed.

(** X14.  A toggle moves the records of the id from one status view to the
    other: a view after the toggle shows the records it showed before that
    have another id, unchanged, and the toggled records of those the
    opposite view showed with that id, and nothing else. *)
Theorem toggle_moves_between_views env p st id0 f todo' :
  exists st1,
    step env p st (Toggle id0) = Some st1 /\
    (In todo' (filteredTodos (with_filter st1 f)) <->
     (In todo' (filteredTodos (with_filter st f)) /\ id todo' <> id0) \/
     (exists todo,
        In todo (filteredTodos (with_filter st (other_view f))) /\
        id todo = id0 /\ todo' = toggled todo)).
Proof.
  eexists. split; [apply step_Toggle|].
  rewrite !filteredTodos_with_filter. cbn [todos]. unfold toggled_all.
  rewrite filter_In, in_map_iff. split.
  - intros [(t & Et & Hin) Hf]. destruct (Z.eqb_spec (id t) id0) as [E|E].
    + right. exists t. subst todo'. rewrite toggled_view in Hf.
      split; [apply filter_In; split; assumption|]. split; [exact E|reflexivity].
    + left. subst todo'. split; [apply filter_In; split; assumption|exact E].
  - intros [[Hin Hne]|(t & Hin & Hid & ->)].
    + apply filter_In in Hin. destruct Hin as [Hin Hf]. split; [|exact Hf].
      exists todo'. split; [|exact Hin].
      destruct (Z.eqb_spec (id todo') id0); [contradiction|reflexivity].
    + apply filter_In in Hin. destruct Hin as [Hin Hf].
      split; [|rewrite toggled_view; exact Hf].
      exists t. split; [|exact Hin]. rewrite Hid, Z.eqb_refl. reflexivity.
Qed.

(** ** Where a record comes from *)

(** X15.  No event edits a record's id or text: a record of the sequence
    after an event is the new record of an add, made of the clock reading
    and the trimmed text field, or has the id and the text of a record of
    the sequence before, and the same status unless the event is the
    toggle of its id. *)
Theorem records_keep_id_and_text env p st ev st' todo' :
  step env p st ev = Some st' ->
  In todo' (todos st') ->
  (exists todo,
     In todo (todos st) /\ id todo = id todo' /\ text todo = text todo' /\
     (status todo = status todo' \/ ev = Toggle (id todo))) \/
  (ev = Add /\ trim (newTodo st) <> [] /\
   todo' = {| id := Date_now env; text := trim (newTodo st);
              status := Pending |}).
Proof.
  intros Hs Hin. apply step_todos in Hs. rewrite Hs in Hin. clear Hs.
  assert (Hsame : In todo' (todos st) ->
    exists todo, In todo (todos st) /\ id todo = id todo' /\
      text todo = text todo' /\ (status todo = status todo' \/ ev = Toggle (id todo))).
  { intros H. exists todo'. auto. }
  destruct ev as [value| |id0|id0|value]; auto.
  - destruct (trim (newTodo st)) as [|c r] eqn:Et; [auto|].
    unfold added in Hin. apply in_app_or in Hin. destruct Hin as [H|[H|[]]]; [auto|].
    right. rewrite Et in H. split; [reflexivity|]. split; [discriminate|].
    symmetry. exact H.
  - unfold deleted in Hin. apply filter_In in Hin. left. apply Hsame, Hin.
  - unfold toggled_all in Hin. apply in_map_iff in Hin.
    destruct Hin as (t & Et & Hin). left.
    destruct (Z.eqb_spec (id t) id0) as [E|E].
    + exists t. subst todo'. cbn [toggled id text]. rewrite E. auto.
    + subst todo'. exists t. auto.
Qed.

(** ** Order of the sequence *)

(** The clock of an add reads later than every id of the sequence. *)
Definition later_clock (env : Env) (st : State) (ev : Event) : Prop :=
  ev = Add -> Forall (fun i => (i < Date_now env)%Z) (map id (todos st)).

Lemma sorted_filter (keep : Todo -> bool) l :
  StronglySorted Z.lt (map id l) ->
  StronglySorted Z.lt (map id (List.filter keep l)).
Proof.
  induction l as [|t l IH]; cbn; [constructor|]. intros H.
  apply StronglySorted_inv in H. destruct H as [Hs Hf].
  destruct (keep t); [|apply IH; exact Hs].
  cbn. constructor; [apply IH; exact Hs|].
  rewrite Forall_forall in *. intros i Hi. apply Hf.
  apply in_map_iff in Hi. destruct Hi as (x & <- & Hx).
  apply filter_In in Hx. apply in_map, Hx.
Qed.

Lemma sorted_snoc l i :
  StronglySorted Z.lt l -> Forall (fun j => (j < i)%Z) l ->
  StronglySorted Z.lt (l ++ [i]).
Proof.
  induction l as [|j l IH]; cbn; intros Hs Hf.
  - constructor; constructor.
  - apply StronglySorted_inv in Hs. destruct Hs as [Hs Hj].
    apply Forall_cons_iff in Hf. destruct Hf as [Hji Hf].
    constructor; [apply IH; assumption|].
    apply Forall_app. split; [exact Hj|]. constructor; [exact Hji|constructor].
Qed.

Lemma toggled_ids l id0 :
  map id (map (fun todo => if (id todo =? id0)%Z then toggled todo else todo) l)
  = map id l.
Proof.
  rewrite map_map. apply map_ext. intros t.
  destruct (id t =? id0)%Z; reflexivity.
Qed.

(** X16.  While the clock of every add reads later than the ids already
    in the sequence, the sequence stays in order of creation: ids strictly
    increase along it, whatever is deleted or toggled in between. *)
Theorem ids_stay_in_order s0 st :
  StronglySorted Z.lt (map id (todos s0)) ->
  reachable later_clock s0 st ->
  StronglySorted Z.lt (map id (todos st)).
Proof.
  intros H0 Hr. induction Hr as [|st env p ev st' Hr IH Ha Hs]; [exact H0|].
  apply step_todos in Hs. rewrite Hs. clear Hs.
  destruct ev as [value| |id0|id0|value]; try exact IH.
  - destruct (trim (newTodo st)) as [|c r] eqn:Et; [exact IH|].
    unfold added. rewrite map_app. cbn [map id].
    apply sorted_snoc; [exact IH|]. apply Ha. reflexivity.
  - unfold deleted. apply sorted_filter, IH.
  - unfold toggled_all. rewrite toggled_ids. exact IH.
Qed.

(** ** The state a deferred delete works on *)

(** X17.  On the host [confirmDelete] does nothing before the dialog is
    answered, and the delete that follows a truthy answer works on the
    sequence of the render in which the button was clicked: whatever the
    state has become in between, the sequence is set to the clicked
    render's sequence without the record, so a record added while the
    dialog was open is lost. *)
Theorem confirmDelete_deletes_from_clicked_render env api dialog p st id0 v st2 :
  electronAPI env = Some api ->
  showConfirmDialog dialog delete_question = Fulfilled v ->
  truthy v = true ->
  now (confirmDelete env dialog st id0 (start p)) = [] /\
  next_state st2 (later (confirmDelete env dialog st id0 (start p))) =
    Some {| todos := List.filter (fun todo => negb (id todo =? id0)%Z) (todos st);
            newTodo := newTodo st2;
            filter := filter st2 |}.
Proof.
  intros Ha Hd Hv. unfold confirmDelete. rewrite Ha, Hd.
  unfold async, bind, await, when. cbn.
  destruct (truthy v); [|discriminate].
  destruct (deleteTodo_deferred env st id0 p) as (_ & Hn & Hl & _).
  cbv zeta in Hn, Hl. rewrite Hn, Hl.
  destruct (showNotification_any env (lit "Todo Deleted")
              (lit "A todo has been deleted.")
              {| permission := p; deferred := true |}) as (_ & _ & Hall & Hnow).
  unfold effects in Hall. rewrite (Hnow eq_refl) in Hall. cbn [app] in Hall.
  split; [reflexivity|].
  rewrite next_state_SetTodos.
  rewrite next_state_cons_other by apply save_call_other.
  apply next_state_other, no_state_update_app;
    auto using report_other, notification_other.
Qed.

(** ** Instances *)

Definition stored_shopping : JSString := JSON.stringify (Todos_to_js [milk; bread]).

Lemma shopping_well_formed : Serialization.well_formed_todos [milk; bread].
Proof. repeat constructor; apply Serialization.well_formed_lit. Qed.

Lemma saved_sequence_loads_back_witness :
  electronAPI (web 1700000000200) = None /\
  Serialization.well_formed_todos [milk; bread] /\
  now (saveTodos (web 1700000000200) [milk; bread] (start default)) =
    [SetItem (lit "todos") stored_shopping] /\
  next_state initial (effects (mount (browser stored_shopping) (start granted))) =
    Some shopping.
Proof.
  split; [reflexivity|]. split; [exact shopping_well_formed|].
  destruct (@saved_sequence_loads_back (web 1700000000200) (browser stored_shopping)
              default granted [milk; bread] eq_refl shopping_well_formed)
    as (s & Hs & Hl).
  assert (E : s = stored_shopping).
  { vm_compute in Hs. injection Hs as <-. vm_compute. reflexivity. }
  subst s. split; [exact Hs|].
  apply Hl; [reflexivity|vm_compute; reflexivity].
Defined.

Lemma host_saved_sequence_loads_back_witness :
  electronAPI (host (Fulfilled JNull)) =
    Some {| getOfflineData := Fulfilled JNull;
            saveOfflineData := fun _ => Fulfilled tt |} /\
  now (saveTodos (host (Fulfilled JNull)) [milk; bread] (start default)) =
    [SaveOfflineData (JObj [(lit "todos", Todos_to_js [milk; bread])])] /\
  next_state initial
    (effects (mount (host (Fulfilled (JObj [(lit "todos", Todos_to_js [milk; bread])])))
                    (start granted))) =
    Some shopping.
Proof.
  split; [reflexivity|].
  destruct (@host_saved_sequence_loads_back (host (Fulfilled JNull)) _
              (host (Fulfilled (JObj [(lit "todos", Todos_to_js [milk; bread])])))
              {| getOfflineData := Fulfilled (JObj [(lit "todos", Todos_to_js [milk; bread])]);
                 saveOfflineData := fun _ => Fulfilled tt |}
              default granted [milk; bread] eq_refl)
    as (data & Hs & Hl).
  assert (E : data = JObj [(lit "todos", Todos_to_js [milk; bread])]).
  { vm_compute in Hs. injection Hs as <-. vm_compute. reflexivity. }
  subst data. split; [exact Hs|].
  apply Hl; reflexivity.
Defined.

Lemma unparsable_text_rejects_witness :
  electronAPI (browser (lit "[{")) = None /\
  getItem (browser (lit "[{")) (lit "todos") = Some (lit "[{") /\
  lit "[{" <> [] /\
  JSON.parse (lit "[{") = Throw SyntaxError /\
  completion (loadTodos (browser (lit "[{")) (start default)) =
    Return (Rejected SyntaxError) /\
  effects (mount (browser (lit "[{")) (start default)) =
    [GetItem (lit "todos"); UnhandledRejection SyntaxError] /\
  next_state shopping (effects (mount (browser (lit "[{")) (start default))) =
    Some shopping.
Proof.
  split; [reflexivity|]. split; [reflexivity|].
  split; [vm_compute; discriminate|]. split; [vm_compute; reflexivity|].
  apply (@unparsable_text_rejects (browser (lit "[{")) default shopping (lit "[{")
           SyntaxError);
    [reflexivity|reflexivity|vm_compute; discriminate|vm_compute; reflexivity].
Defined.

Lemma one_add_reachable (allowed : Env -> State -> Event -> Prop) :
  allowed (web 1700000000000) initial (Change (lit " buy milk ")) ->
  allowed (web 1700000000000) (typed " buy milk ") Add ->
  reachable allowed initial {| todos := [milk]; newTodo := []; filter := All |}.
Proof.
  intros H1 H2.
  apply (@reachable_step allowed initial (typed " buy milk ")
           (web 1700000000000) default Add);
    [|exact H2|vm_compute; reflexivity].
  apply (@reachable_step allowed initial initial
           (web 1700000000000) default (Change (lit " buy milk ")));
    [|exact H1|vm_compute; reflexivity].
  apply reachable_start.
Qed.

Lemma texts_stay_tidy_witness :
  Forall (fun todo => tidy (text todo)) (todos initial) /\
  reachable any_step initial {| todos := [milk]; newTodo := []; filter := All |} /\
  Forall (fun todo => tidy (text todo)) [milk].
Proof.
  assert (H0 : Forall (fun todo => tidy (text todo)) (todos initial))
    by constructor.
  assert (Hr : reachable any_step initial
                 {| todos := [milk]; newTodo := []; filter := All |})
    by (apply one_add_reachable; exact I).
  split; [exact H0|]. split; [exact Hr|].
  exact (@texts_stay_tidy initial _ H0 Hr).
Defined.

Lemma add_twice_adds_once_witness :
  trim (newTodo (typed "buy milk")) <> [] /\
  exists st1,
    step (web 1700000000000) default (typed "buy milk") Add = Some st1 /\
    List.length (todos st1) = S (List.length (todos (typed "buy milk"))) /\
    newTodo st1 = [] /\
    effects (addTodo (web 1700000000001) st1 (start default)) = [] /\
    step (web 1700000000001) default st1 Add = Some st1.
Proof.
  split; [vm_compute; discriminate|].
  apply add_twice_adds_once. vm_compute. discriminate.
Defined.

Lemma add_then_delete_witness :
  trim (newTodo (typed "buy milk")) <> [] /\
  exists st1 st2,
    step (web 1700000000000) default (typed "buy milk") Add = Some st1 /\
    step (web 1700000000001) default st1 (Delete 1700000000000) = Some st2 /\
    todos st2 = [].
Proof.
  split; [vm_compute; discriminate|].
  destruct (@add_then_delete (web 1700000000000) default (web 1700000000001) default
              (typed "buy milk"))
    as (st1 & st2 & H1 & H2 & H3 & _).
  - vm_compute. discriminate.
  - exists st1, st2. split; [exact H1|]. split; [exact H2|]. exact H3.
Defined.

Lemma shopping_unique_ids : unique_ids (todos shopping).
Proof.
  apply unique_ids_NoDup. cbn.
  constructor; [intros [H|[]]; discriminate|].
  constructor; [intros []|constructor].
Qed.

Lemma unique_id_addresses_one_record_witness :
  unique_ids (todos shopping) /\
  In 1700000000000%Z (map id (todos shopping)) /\
  exists pre todo post,
    todos shopping = pre ++ todo :: post /\
    id todo = 1700000000000%Z /\
    step (web 1700000000200) default shopping (Delete 1700000000000) =
      Some {| todos := pre ++ post; newTodo := newTodo shopping;
              filter := filter shopping |} /\
    step (web 1700000000200) default shopping (Toggle 1700000000000) =
      Some {| todos := pre ++ toggled todo :: post; newTodo := newTodo shopping;
              filter := filter shopping |}.
Proof.
  assert (Hin : In 1700000000000%Z (map id (todos shopping)))
    by (left; reflexivity).
  split; [exact shopping_unique_ids|]. split; [exact Hin|].
  exact (@unique_id_addresses_one_record (web 1700000000200) default shopping
           1700000000000 shopping_unique_ids Hin).
Defined.

Lemma records_keep_id_and_text_witness :
  step (web 1700000000200) default shopping (Toggle 1700000000123) =
    Some {| todos := [milk; toggled bread]; newTodo := []; filter := All |} /\
  In (toggled bread) [milk; toggled bread] /\
  ((exists todo,
      In todo (todos shopping) /\ id todo = id (toggled bread) /\
      text todo = text (toggled bread) /\
      (status todo = status (toggled bread) \/
       Toggle 1700000000123 = Toggle (id todo))) \/
   (Toggle 1700000000123 = Add /\ trim (newTodo shopping) <> [] /\
    toggled bread =
      {| id := Date_now (web 1700000000200); text := trim (newTodo shopping);
         status := Pending |})).
Proof.
  assert (Hs : step (web 1700000000200) default shopping (Toggle 1700000000123) =
    Some {| todos := [milk; toggled bread]; newTodo := []; filter := All |})
    by (vm_compute; reflexivity).
  assert (Hin : In (toggled bread) [milk; toggled bread])
    by (right; left; reflexivity).
  split; [exact Hs|]. split; [exact Hin|].
  exact (@records_keep_id_and_text (web 1700000000200) default shopping
           (Toggle 1700000000123) _ (toggled bread) Hs Hin).
Defined.

Definition eggs : Todo :=
  {| id := 1700000000200; text := lit "eggs"; status := Pending |}.

(** Three adds at later and later readings of the clock, with a toggle
    and a delete in between. *)
Lemma bread_and_eggs_reachable :
  reachable later_clock initial
    {| todos := [bread; eggs]; newTodo := []; filter := All |}.
Proof.
  apply (@reachable_step later_clock initial
           {| todos := [milk; bread; eggs]; newTodo := []; filter := All |}
           (web 1700000000300) default (Delete 1700000000000));
    [|intros H; discriminate|vm_compute; reflexivity].
  apply (@reachable_step later_clock initial
           {| todos := [milk; bread]; newTodo := lit "eggs"; filter := All |}
           (web 1700000000200) default Add);
    [|intros _; repeat constructor|vm_compute; reflexivity].
  apply (@reachable_step later_clock initial shopping
           (web 1700000000200) default (Change (lit "eggs")));
    [|intros H; discriminate|vm_compute; reflexivity].
  apply (@reachable_step later_clock initial
           {| todos := [milk; toggled bread]; newTodo := []; filter := All |}
           (web 1700000000150) default (Toggle 1700000000123));
    [|intros H; discriminate|vm_compute; reflexivity].
  apply (@reachable_step later_clock initial
           {| todos := [milk]; newTodo := lit "bread"; filter := All |}
           (web 1700000000123) default Add);
    [|intros _; repeat constructor|vm_compute; reflexivity].
  apply (@reachable_step later_clock initial
           {| todos := [milk]; newTodo := []; filter := All |}
           (web 1700000000123) default (Change (lit "bread")));
    [|intros H; discriminate|vm_compute; reflexivity].
  apply (@reachable_step later_clock initial (typed "buy milk")
           (web 1700000000000) default Add);
    [|intros _; constructor|vm_compute; reflexivity].
  apply (@reachable_step later_clock initial initial
           (web 1700000000000) default (Change (lit "buy milk")));
    [|intros H; discriminate|vm_compute; reflexivity].
  apply reachable_start.
Qed.

Lemma ids_stay_in_order_witness :
  StronglySorted Z.lt (map id (todos initial)) /\
  reachable later_clock initial
    {| todos := [bread; eggs]; newTodo := []; filter := All |} /\
  StronglySorted Z.lt (map id [bread; eggs]).
Proof.
  assert (H0 : StronglySorted Z.lt (map id (todos initial))) by constructor.
  split; [exact H0|]. split; [exact bread_and_eggs_reachable|].
  exact (@ids_stay_in_order initial _ H0 bread_and_eggs_reachable).
Defined.

(** The host's dialog answered with yes. *)
Definition yes : Dialog :=
  {| showConfirmDialog := fun _ => Fulfilled (JBool true);
     confirm := fun _ => true |}.

Lemma confirmDelete_deletes_from_clicked_render_witness :
  electronAPI (host (Fulfilled JNull)) =
    Some {| getOfflineData := Fulfilled JNull;
            saveOfflineData := fun _ => Fulfilled tt |} /\
  showConfirmDialog yes delete_question = Fulfilled (JBool true) /\
  truthy (JBool true) = true /\
  now (confirmDelete (host (Fulfilled JNull)) yes
         {| todos := [milk]; newTodo := lit "bread"; filter := All |}
         1700000000000 (start default)) = [] /\
  next_state {| todos := [milk; bread]; newTodo := []; filter := All |}
    (later (confirmDelete (host (Fulfilled JNull)) yes
              {| todos := [milk]; newTodo := lit "bread"; filter := All |}
              1700000000000 (start default))) =
    Some {| todos := []; newTodo := []; filter := All |}.
Proof.
  split; [reflexivity|]. split; [reflexivity|]. split; [reflexivity|].
  exact (@confirmDelete_deletes_from_clicked_render (host (Fulfilled JNull)) _ yes
           default {| todos := [milk]; newTodo := lit "bread"; filter := All |}
           1700000000000 (JBool true)
           {| todos := [milk; bread]; newTodo := []; filter := All |}
           eq_refl eq_refl eq_refl).
Defined.
